(** * init-setup.py: the initialization script of the API-log Iceberg test

    A shallow embedding of [src/init-setup.py].  The script waits for a MinIO
    cluster ([wait_for_minio]), registers a Trino catalog
    ([setup_trino_catalog]), prints operator instructions
    ([print_instructions]) and exits ([main]).

    Python values are modelled as follows.
    - [str] is [string].  A [string] is a sequence of bytes; the operations
      the script uses ([replace] of one ASCII character, [lower], [in],
      concatenation) act on the ASCII bytes of a UTF-8 text exactly as they
      act on its code points, since no byte of a multi-byte UTF-8 sequence is
      below 128.
    - The outside world (the HTTP endpoint, the Trino client library) is a
      record of outcomes, [world]; every call of the script that can fail
      returns a value or raises an exception.
    - Effects are threaded through a state-and-exception monad [M]; the state
      holds the chronological trace of observable events and the open/closed
      status of the SQL connection and cursor. *)

From Stdlib Require Import String Ascii List ZArith Bool Arith Lia.
Import ListNotations.
Open Scope string_scope.

(* ================================================================== *)
(** ** Python string operations *)
(* ================================================================== *)

Module PyStr.

(** The double-quote character, which the templates of the script contain. *)
Definition dq : string := String (ascii_of_nat 34) EmptyString.

(** The newline character. *)
Definition nl : string := String (ascii_of_nat 10) EmptyString.

(** [q s] is [s] between double quotes. *)
Definition q (s : string) : string := dq ++ s ++ dq.

(** [unlines ls] joins the lines [ls] with newlines (no trailing newline). *)
Fixpoint unlines (ls : list string) : string :=
  match ls with
  | [] => ""
  | [l] => l
  | l :: rest => l ++ nl ++ unlines rest
  end.

(** Python's [s * n]. *)
Fixpoint str_repeat (s : string) (n : nat) : string :=
  match n with
  | O => ""
  | S k => s ++ str_repeat s k
  end.

(** [sub in s]: Python's substring test. *)
Fixpoint contains (sub s : string) : bool :=
  prefix sub s ||
  match s with
  | EmptyString => false
  | String _ s' => contains sub s'
  end.

(** [str.lower] on the ASCII letters. *)
Definition lower_ascii (c : ascii) : ascii :=
  let n := nat_of_ascii c in
  if ((65 <=? n) && (n <=? 90))%nat then ascii_of_nat (n + 32) else c.

Fixpoint lower (s : string) : string :=
  match s with
  | EmptyString => EmptyString
  | String c s' => String (lower_ascii c) (lower s')
  end.

(** [str.replace(old, new)] with a non-empty [old]: scanning from the left,
    every non-overlapping occurrence of [old] is replaced by [new].  [skip]
    counts the characters of a matched occurrence still to be dropped. *)
Fixpoint replace_from (old new : string) (skip : nat) (s : string) : string :=
  match s with
  | EmptyString => EmptyString
  | String c s' =>
      match skip with
      | S k => replace_from old new k s'
      | O =>
          if prefix old s
          then new ++ replace_from old new (pred (String.length old)) s'
          else String c (replace_from old new 0 s')
      end
  end.

(** With an empty [old], Python inserts [new] before every character and at
    the end. *)
Fixpoint intersperse_new (new s : string) : string :=
  match s with
  | EmptyString => new
  | String c s' => new ++ String c (intersperse_new new s')
  end.

Definition replace (old new s : string) : string :=
  match old with
  | EmptyString => intersperse_new new s
  | String _ _ => replace_from old new 0 s
  end.

(** Whitespace, as SQL and the shell see it. *)
Definition is_space (c : ascii) : bool :=
  let n := nat_of_ascii c in
  ((n =? 32) || (n =? 10) || (n =? 9) || (n =? 13))%nat.

(** [squeeze pending s] is the layout-free form of [s]: every run of
    whitespace becomes one space and trailing whitespace is dropped.
    [pending] tells whether whitespace has been read since the last character
    that was kept. *)
Fixpoint squeeze (pending : bool) (s : string) : string :=
  match s with
  | EmptyString => EmptyString
  | String c s' =>
      if is_space c then squeeze true s'
      else (if pending then " " else "") ++ String c (squeeze false s')
  end.

(** The [pending] flag of [squeeze] after reading [s]. *)
Fixpoint pending_after (pending : bool) (s : string) : bool :=
  match s with
  | EmptyString => pending
  | String c s' => pending_after (is_space c) s'
  end.

(** Python's [repr] of a [str]: between single quotes, or between double
    quotes when the text holds a single quote and no double quote; the
    backslash and the enclosing quote are escaped, newline, carriage return
    and tab are written [\n], [\r], [\t], and every other control character
    [\xNN].  The bytes of a character outside ASCII are kept, as [repr] keeps
    every printable character. *)
Definition backslash : string := String (ascii_of_nat 92) EmptyString.

Definition hex_digit (n : nat) : ascii :=
  ascii_of_nat (if (n <? 10)%nat then 48 + n else 87 + n).

Definition repr_char (quote c : ascii) : string :=
  let n := nat_of_ascii c in
  if (n =? 92)%nat then backslash ++ backslash
  else if Ascii.eqb c quote then backslash ++ String c EmptyString
  else if (n =? 10)%nat then backslash ++ "n"
  else if (n =? 13)%nat then backslash ++ "r"
  else if (n =? 9)%nat then backslash ++ "t"
  else if ((n <? 32) || (n =? 127))%nat
       then backslash ++ "x"
            ++ String (hex_digit (n / 16)) (String (hex_digit (n mod 16)) EmptyString)
  else String c EmptyString.

Fixpoint repr_body (quote : ascii) (s : string) : string :=
  match s with
  | EmptyString => EmptyString
  | String c s' => repr_char quote c ++ repr_body quote s'
  end.

Definition repr_quote (s : string) : ascii :=
  if contains "'" s && negb (contains dq s) then ascii_of_nat 34 else "'"%char.

Definition repr_str (s : string) : string :=
  String (repr_quote s) (repr_body (repr_quote s) s)
  ++ String (repr_quote s) EmptyString.

(** [s] is made of ASCII characters. *)
Fixpoint ascii_only (s : string) : bool :=
  match s with
  | EmptyString => true
  | String c s' => (nat_of_ascii c <? 128)%nat && ascii_only s'
  end.

Fixpoint join (sep : string) (ls : list string) : string :=
  match ls with
  | [] => ""
  | [l] => l
  | l :: rest => l ++ sep ++ join sep rest
  end.

Definition repr_list (ls : list string) : string :=
  "[" ++ join ", " (map repr_str ls) ++ "]".

End PyStr.
Import PyStr.

(* ================================================================== *)
(** ** Exceptions, events and the monad of the script *)
(* ================================================================== *)

(** The exception classes the script can meet.  The last two derive from
    [BaseException] only: [except Exception] does not catch them. *)
Inductive exn_class : Type :=
| ConnectionError      (* requests: connection refused, DNS failure *)
| Timeout              (* requests: connect or read timeout *)
| ImportError          (* a module that is not installed *)
| TrinoError           (* any error of the trino client or server *)
| IndexError
| OtherException
| KeyboardInterrupt
| SystemExit.

(** An exception: its class and [str(e)]. *)
Record exn : Type := mkExn { exn_cls : exn_class; exn_msg : string }.

(** [isinstance(e, Exception)]. *)
Definition is_Exception (e : exn) : bool :=
  match exn_cls e with
  | KeyboardInterrupt | SystemExit => false
  | _ => true
  end.

(** The transport errors of a GET. *)
Definition is_transport_error (e : exn) : bool :=
  match exn_cls e with
  | ConnectionError | Timeout => true
  | _ => false
  end.

(** A call returns a value or raises. *)
Inductive result (A : Type) : Type :=
| Normal (a : A)
| Raised (e : exn).
Arguments Normal {A} a.
Arguments Raised {A} e.

(** What the script does that can be observed from outside, in order. *)
Inductive event : Type :=
| EvCall (fn : string)                        (* a function of the script is entered *)
| EvLog (msg : string)                        (* log(msg): the line "[HH:MM:SS] msg" *)
| EvPrint (text : string)                     (* print(text) *)
| EvGet (url : string) (timeout : Z)          (* requests.get(url, timeout=...) *)
| EvSleep (secs : Z)                          (* time.sleep(secs) *)
| EvImport (modname : string)
| EvConnect (host : string) (port : Z) (user : string)
| EvCursor
| EvExecute (sql : string)
| EvFetchall
| EvCursorClose
| EvConnClose.

(** The state threaded through the script. *)
Record state : Type := mkState {
  trace : list event;      (* chronological *)
  gets : nat;              (* number of GETs issued so far *)
  conn_open : bool;        (* the SQL connection is open *)
  cursor_open : bool       (* the SQL cursor is open *)
}.

Definition init_state : state := mkState [] 0 false false.

(** The outside world: what every external call answers. *)
Record world : Type := mkWorld {
  requests_get : nat -> string -> result Z;     (* n-th GET of the run: status code *)
  import_trino : result unit;
  dbapi_connect : string -> Z -> string -> result unit;
  conn_cursor : result unit;
  cursor_execute : string -> result unit;
  cursor_fetchall : result (list (list string));
  cursor_close : result unit;
  conn_close : result unit
}.

Module Monad.

Definition M (A : Type) : Type := state -> result A * state.

Definition ret {A} (a : A) : M A := fun st => (Normal a, st).

Definition bind {A B} (m : M A) (k : A -> M B) : M B :=
  fun st =>
    match m st with
    | (Normal a, st') => k a st'
    | (Raised e, st') => (Raised e, st')
    end.

Definition lift {A} (r : result A) : M A := fun st => (r, st).

(** [try: body except Exception as e: handler e]. *)
Definition try_except {A} (body : M A) (handler : exn -> M A) : M A :=
  fun st =>
    match body st with
    | (Normal a, st') => (Normal a, st')
    | (Raised e, st') =>
        if is_Exception e then handler e st' else (Raised e, st')
    end.

Definition emit (ev : event) : M unit :=
  fun st => (Normal tt,
             mkState (trace st ++ [ev]) (gets st) (conn_open st) (cursor_open st)).

Definition modify (f : state -> state) : M unit :=
  fun st => (Normal tt, f st).

End Monad.
Import Monad.

Declare Scope script_scope.
Delimit Scope script_scope with script.
Notation "x <- m ;; k" := (bind m (fun x => k))
  (at level 61, m at next level, right associativity) : script_scope.
Notation "m ;; k" := (bind m (fun _ => k))
  (at level 61, right associativity) : script_scope.
Open Scope script_scope.

(** The process, as the shell sees it: [sys.exit(main())] exits with the
    status [main] returns; an exception that reaches the top level ends the
    interpreter with a traceback and a non-zero status. *)
Inductive process_end : Type :=
| Exited (status : Z)
| Uncaught (e : exn).

(* ================================================================== *)
(** ** Configuration *)
(* ================================================================== *)

(** The module-level settings, read from the environment once at start-up. *)
Record config : Type := mkConfig {
  MINIO_ENDPOINT : string;
  ACCESS_KEY : string;
  SECRET_KEY : string;
  WAREHOUSE_BUCKET : string;
  NAMESPACE : string;
  TABLE_NAME : string;
  TRINO_HOST : string;
  TRINO_PORT : Z
}.

(** The values [os.getenv] falls back to. *)
Definition default_config : config :=
  mkConfig "http://nginx:9000" "minioadmin" "minioadmin" "api-logs"
           "minio" "api_logs" "trino" 8080.

(* ================================================================== *)
(** ** The script *)
(* ================================================================== *)

Section Script.

Variable cfg : config.
Variable w : world.

(** *** Primitive effects *)

Definition set_conn (b : bool) (st : state) : state :=
  mkState (trace st) (gets st) b (cursor_open st).

Definition set_cursor (b : bool) (st : state) : state :=
  mkState (trace st) (gets st) (conn_open st) b.

(** [log(msg)] prints [msg] behind a timestamp. *)
Definition log (msg : string) : M unit := emit (EvLog msg).

Definition print (text : string) : M unit := emit (EvPrint text).

Definition sleep (secs : Z) : M unit := emit (EvSleep secs).

(** [requests.get(url, timeout=t)]: the status code of the response. *)
Definition http_get (url : string) (timeout : Z) : M Z :=
  fun st =>
    (requests_get w (gets st) url,
     mkState (trace st ++ [EvGet url timeout]) (S (gets st))
             (conn_open st) (cursor_open st)).

(** A call of the trino client: the event is recorded, the world answers. *)
Definition extern {A} (ev : event) (answer : result A) : M A :=
  emit ev ;; lift answer.

(** [trino.dbapi.connect]: a connection is open once it returns. *)
Definition connect (host : string) (port : Z) (user : string) : M unit :=
  extern (EvConnect host port user) (dbapi_connect w host port user) ;;
  modify (set_conn true).

(** [conn.cursor()]. *)
Definition open_cursor : M unit :=
  extern EvCursor (conn_cursor w) ;; modify (set_cursor true).

Definition execute (sql : string) : M unit :=
  extern (EvExecute sql) (cursor_execute w sql).

Definition fetchall : M (list (list string)) :=
  extern EvFetchall (cursor_fetchall w).

(** [cursor.close()] and [conn.close()]: closed once the call returns. *)
Definition close_cursor : M unit :=
  extern EvCursorClose (cursor_close w) ;; modify (set_cursor false).

Definition close_conn : M unit :=
  extern EvConnClose (conn_close w) ;; modify (set_conn false).

(** [for x in xs: body], where the body may return from the function:
    [Some b] is a [return b], [None] falls through to the next round. *)
Fixpoint for_each {A B} (xs : list A) (body : A -> M (option B)) : M (option B) :=
  match xs with
  | [] => ret None
  | x :: rest =>
      r <- body x ;;
      match r with
      | Some b => ret (Some b)
      | None => for_each rest body
      end
  end.

(** *** wait_for_minio *)

Definition health_url : string := cfg.(MINIO_ENDPOINT) ++ "/minio/health/live".

(** The [try] statement of one round. *)
Definition probe : M (option bool) :=
  try_except
    (status_code <- http_get health_url 5 ;;
     if (status_code =? 200)%Z
     then log "MinIO cluster is ready" ;; ret (Some true)
     else ret None)
    (fun _ => ret None).

(** The body of the [for] loop, lines 42-49. *)
Definition round (i : nat) : M (option bool) :=
  r <- probe ;;
  match r with
  | Some b => ret (Some b)
  | None => sleep 2 ;; ret None
  end.

Definition wait_for_minio : M bool :=
  emit (EvCall "wait_for_minio") ;;
  log "Waiting for MinIO cluster to be ready..." ;;
  r <- for_each (seq 0 60) round ;;
  match r with
  | Some b => ret b
  | None => log "Warning: MinIO health check timed out" ;; ret false
  end.

(** *** setup_trino_catalog *)

(** Line 60: Trino catalog names cannot have hyphens. *)
Definition catalog_name_of (bucket : string) : string := replace "-" "_" bucket.

(** The f-string of lines 71-88. *)
Definition create_catalog_sql_lines (catalog_name : string) : list string :=
  [ "";
    "            CREATE CATALOG " ++ catalog_name ++ " USING iceberg";
    "            WITH (";
    "                " ++ q "iceberg.catalog.type" ++ " = 'rest',";
    "                " ++ q "iceberg.rest-catalog.uri" ++ " = '" ++ cfg.(MINIO_ENDPOINT) ++ "/_iceberg',";
    "                " ++ q "iceberg.rest-catalog.warehouse" ++ " = '" ++ cfg.(WAREHOUSE_BUCKET) ++ "',";
    "                " ++ q "iceberg.rest-catalog.vended-credentials-enabled" ++ " = 'true',";
    "                " ++ q "iceberg.rest-catalog.security" ++ " = 'SIGV4',";
    "                " ++ q "iceberg.rest-catalog.signing-name" ++ " = 's3tables',";
    "                " ++ q "s3.region" ++ " = 'us-east-1',";
    "                " ++ q "s3.aws-access-key" ++ " = '" ++ cfg.(ACCESS_KEY) ++ "',";
    "                " ++ q "s3.aws-secret-key" ++ " = '" ++ cfg.(SECRET_KEY) ++ "',";
    "                " ++ q "s3.endpoint" ++ " = '" ++ cfg.(MINIO_ENDPOINT) ++ "',";
    "                " ++ q "s3.path-style-access" ++ " = 'true',";
    "                " ++ q "fs.hadoop.enabled" ++ " = 'false',";
    "                " ++ q "fs.native-s3.enabled" ++ " = 'true'";
    "            )";
    "        " ].

Definition create_catalog_sql (catalog_name : string) : string :=
  unlines (create_catalog_sql_lines catalog_name).

(** [[s[0] for s in schemas]]: an empty row raises [IndexError]. *)
Fixpoint first_columns (rows : list (list string)) : result (list string) :=
  match rows with
  | [] => Normal []
  | [] :: _ => Raised (mkExn IndexError "tuple index out of range")
  | (c :: _) :: rest =>
      match first_columns rest with
      | Normal cs => Normal (c :: cs)
      | Raised e => Raised e
      end
  end.

(** The body of the [try] statement, lines 63-100. *)
Definition setup_try (catalog_name : string) : M unit :=
  connect cfg.(TRINO_HOST) cfg.(TRINO_PORT) "trino" ;;
  open_cursor ;;
  log ("Creating Trino catalog: " ++ catalog_name) ;;
  execute (create_catalog_sql catalog_name) ;;
  log ("Trino catalog '" ++ catalog_name ++ "' created successfully") ;;
  execute ("SHOW SCHEMAS FROM " ++ catalog_name) ;;
  schemas <- fetchall ;;
  names <- lift (first_columns schemas) ;;
  log ("Available schemas in " ++ catalog_name ++ ": " ++ repr_list names) ;;
  close_cursor ;;
  close_conn.

(** ["already exists" in error_msg.lower()]. *)
Definition says_already_exists (e : exn) : bool :=
  contains "already exists" (lower (exn_msg e)).

(** The [except Exception as e] clause, lines 102-108. *)
Definition setup_except (catalog_name : string) (e : exn) : M unit :=
  if says_already_exists e
  then log ("Trino catalog '" ++ catalog_name ++ "' already exists")
  else
    log ("Warning: Could not create Trino catalog: " ++ exn_msg e) ;;
    log "You may need to create the catalog manually".

Definition setup_trino_catalog : M string :=
  emit (EvCall "setup_trino_catalog") ;;
  extern (EvImport "trino") (import_trino w) ;;
  log "Setting up Trino catalog..." ;;
  let catalog_name := catalog_name_of cfg.(WAREHOUSE_BUCKET) in
  try_except (setup_try catalog_name) (setup_except catalog_name) ;;
  ret catalog_name.

(** *** print_instructions *)

Definition star : string := "*".

(** The f-string of lines 118-197, section by section. *)
Definition intro_lines : list string :=
  [ "";
    "The MinIO cluster is configured to write API logs to an Iceberg table.";
    "Logs will be written to: " ++ cfg.(WAREHOUSE_BUCKET) ++ "/" ++ cfg.(NAMESPACE) ++ "/" ++ cfg.(TABLE_NAME);
    "";
    "CONFIGURATION:";
    "  - Write interval: logs are batched and written to Parquet files periodically";
    "  - Commit interval: Parquet files are committed to Iceberg periodically";
    "  - Both intervals are configurable via environment variables";
    "" ].

Definition step1_lines : list string :=
  [ "STEP 1: Generate API Traffic";
    "============================";
    "Use the mc client to generate API traffic that will be logged:";
    "";
    "  # Install mc if not already installed";
    "  # https://min.io/docs/minio/linux/reference/minio-mc.html";
    "";
    "  # Set up alias";
    "  mc alias set minio http://localhost:9000 " ++ cfg.(ACCESS_KEY) ++ " " ++ cfg.(SECRET_KEY);
    "";
    "  # Create a test bucket and upload files";
    "  mc mb minio/test-bucket";
    "  for i in $(seq 1 100); do";
    "    echo " ++ q "test data $i" ++ " | mc pipe minio/test-bucket/file-$i.txt";
    "  done";
    "";
    "  # List objects, get objects, etc.";
    "  mc ls minio/test-bucket";
    "  mc cat minio/test-bucket/file-1.txt";
    "  mc stat minio/test-bucket/file-1.txt";
    "" ].

Definition step2_lines : list string :=
  [ "STEP 2: Wait for Logs to be Committed";
    "=====================================";
    "The API logs are:";
    "  1. Written to local storage on each MinIO node";
    "  2. Periodically batched into Parquet files (write_interval)";
    "  3. Committed to the Iceberg table by the leader (commit_interval)";
    "";
    "Default intervals are 30s write / 1m commit for this test setup.";
    "Wait at least 2 minutes after generating traffic for logs to appear.";
    "" ].

(** The example queries. *)
Definition step3_lines (catalog_name : string) : list string :=
  [ "STEP 3: Query Logs with Trino";
    "=============================";
    "Connect to Trino and query the API logs:";
    "";
    "  # Using Trino CLI";
    "  docker exec -it trino trino";
    "";
    "  # In Trino, query the table";
    "  USE " ++ catalog_name ++ "." ++ cfg.(NAMESPACE) ++ ";";
    "  SELECT COUNT(" ++ star ++ ") FROM " ++ cfg.(TABLE_NAME) ++ ";";
    "  SELECT time, name, bucket, object, httpStatusCode FROM " ++ cfg.(TABLE_NAME) ++ " LIMIT 10;";
    "  SELECT name, COUNT(" ++ star ++ ") as cnt FROM " ++ cfg.(TABLE_NAME) ++ " GROUP BY name ORDER BY cnt DESC;";
    "";
    "  # Time-based queries";
    "  SELECT * FROM " ++ cfg.(TABLE_NAME) ++ " WHERE time > TIMESTAMP '2024-01-01 00:00:00';";
    "" ].

Definition manual_heading_lines : list string :=
  [ "ALTERNATIVE: Create Trino Catalog Manually";
    "==========================================";
    "If the catalog wasn't created automatically, create it in Trino:";
    "" ].

(** The manual fallback DDL, lines 178-192. *)
Definition manual_ddl_lines (catalog_name : string) : list string :=
  [ "  CREATE CATALOG " ++ catalog_name ++ " USING iceberg WITH (";
    "    " ++ q "iceberg.catalog.type" ++ " = 'rest',";
    "    " ++ q "iceberg.rest-catalog.uri" ++ " = '" ++ cfg.(MINIO_ENDPOINT) ++ "/_iceberg',";
    "    " ++ q "iceberg.rest-catalog.warehouse" ++ " = '" ++ cfg.(WAREHOUSE_BUCKET) ++ "',";
    "    " ++ q "iceberg.rest-catalog.vended-credentials-enabled" ++ " = 'true',";
    "    " ++ q "iceberg.rest-catalog.security" ++ " = 'SIGV4',";
    "    " ++ q "iceberg.rest-catalog.signing-name" ++ " = 's3tables',";
    "    " ++ q "s3.region" ++ " = 'us-east-1',";
    "    " ++ q "s3.aws-access-key" ++ " = '" ++ cfg.(ACCESS_KEY) ++ "',";
    "    " ++ q "s3.aws-secret-key" ++ " = '" ++ cfg.(SECRET_KEY) ++ "',";
    "    " ++ q "s3.endpoint" ++ " = '" ++ cfg.(MINIO_ENDPOINT) ++ "',";
    "    " ++ q "s3.path-style-access" ++ " = 'true',";
    "    " ++ q "fs.hadoop.enabled" ++ " = 'false',";
    "    " ++ q "fs.native-s3.enabled" ++ " = 'true'";
    "  );" ].

Definition web_lines : list string :=
  [ "";
    "WEB INTERFACES:";
    "  - MinIO Console: http://localhost:9001 (" ++ cfg.(ACCESS_KEY) ++ "/" ++ cfg.(SECRET_KEY) ++ ")";
    "  - Trino UI: http://localhost:9999";
    "" ].

Definition example_queries (catalog_name : string) : string :=
  unlines (step3_lines catalog_name).

Definition manual_ddl (catalog_name : string) : string :=
  unlines (manual_ddl_lines catalog_name).

Definition instructions_lines (catalog_name : string) : list string :=
  (intro_lines ++ step1_lines ++ step2_lines ++ step3_lines catalog_name
   ++ manual_heading_lines ++ manual_ddl_lines catalog_name ++ web_lines)%list.

Definition instructions (catalog_name : string) : string :=
  unlines (instructions_lines catalog_name).

Definition print_instructions (catalog_name : string) : M unit :=
  emit (EvCall "print_instructions") ;;
  print (nl ++ str_repeat "=" 70) ;;
  print "SETUP COMPLETE" ;;
  print (str_repeat "=" 70) ;;
  print (instructions catalog_name) ;;
  print (str_repeat "=" 70).

(** *** main *)

Definition main : M Z :=
  log (str_repeat "=" 60) ;;
  log "API Log Iceberg Integration Test - Initialization" ;;
  log (str_repeat "=" 60) ;;
  wait_for_minio ;;
  catalog_name <- setup_trino_catalog ;;
  print_instructions catalog_name ;;
  log (str_repeat "=" 60) ;;
  log "Initialization complete!" ;;
  log (str_repeat "=" 60) ;;
  ret 0%Z.

(** [sys.exit(main())] in a fresh process. *)
Definition run_script : process_end * state :=
  match main init_state with
  | (Normal status, st) => (Exited status, st)
  | (Raised e, st) => (Uncaught e, st)
  end.

End Script.

(** The functions of the script entered during a run, in order. *)
Fixpoint calls (t : list event) : list string :=
  match t with
  | [] => []
  | EvCall fn :: rest => fn :: calls rest
  | _ :: rest => calls rest
  end.

(** The GETs issued and the seconds slept during a run. *)
Fixpoint count_gets (t : list event) : nat :=
  match t with
  | [] => 0
  | EvGet _ _ :: rest => S (count_gets rest)
  | _ :: rest => count_gets rest
  end.

Fixpoint seconds_slept (t : list event) : Z :=
  match t with
  | [] => 0
  | EvSleep secs :: rest => secs + seconds_slept rest
  | _ :: rest => seconds_slept rest
  end.

(** The lines logged during a run. *)
Fixpoint logged (t : list event) : list string :=
  match t with
  | [] => []
  | EvLog msg :: rest => msg :: logged rest
  | _ :: rest => logged rest
  end.

(** The SQL statements sent to Trino during a run. *)
Fixpoint executed (t : list event) : list string :=
  match t with
  | [] => []
  | EvExecute sql :: rest => sql :: executed rest
  | _ :: rest => executed rest
  end.


(* ================================================================== *)
(** ** Vocabulary of the statements *)
(* ================================================================== *)

(** [is_infix sub s]: [sub] occurs in [s]. *)
Definition is_infix (sub s : string) : Prop :=
  exists pre post, s = pre ++ sub ++ post.

(** [sub] occurs in [s] when the case of letters is ignored. *)
Definition ci_infix (sub s : string) : Prop :=
  exists pre mid post, s = pre ++ mid ++ post /\ lower mid = sub.

(** Character-wise image of a string. *)
Fixpoint map_str (f : ascii -> ascii) (s : string) : string :=
  match s with
  | EmptyString => EmptyString
  | String c s' => String (f c) (map_str f s')
  end.

Definition hyphen_to_underscore (c : ascii) : ascii :=
  if Ascii.eqb c "-" then "_"%char else c.

(** A computation that enters no function of the script beyond [cs]: the
    calls recorded during any run of [m] are [cs]. *)
Definition enters {A} (m : M A) (cs : list string) : Prop :=
  forall st r st', m st = (r, st') ->
    calls (trace st') = (calls (trace st) ++ cs)%list.

(** A call that raises only what [except Exception] catches. *)
Definition caught {A} (r : result A) : bool :=
  match r with
  | Normal _ => true
  | Raised e => is_Exception e
  end.

(** The answer of a GET is a response with status 200. *)
Definition ready (r : result Z) : bool :=
  match r with
  | Normal status_code => (status_code =? 200)%Z
  | Raised _ => false
  end.

(** [extend evs k st]: the state [st] after the events [evs], [k] of them
    GETs. *)
Definition extend (evs : list event) (k : nat) (st : state) : state :=
  mkState (trace st ++ evs) (k + gets st) (conn_open st) (cursor_open st).

(** Sample worlds: a health endpoint that always answers 503, one that
    refuses two connections and then answers 200, and a Trino server that
    accepts every statement. *)
Definition trino_ok (get : nat -> string -> result Z) : world :=
  mkWorld get (Normal tt) (fun _ _ _ => Normal tt) (Normal tt)
          (fun _ => Normal tt)
          (Normal [["information_schema"]; ["minio"]]) (Normal tt) (Normal tt).

Definition world_503 : world := trino_ok (fun _ _ => Normal 503%Z).

Definition world_ready_third : world :=
  trino_ok (fun n _ => if (n <? 2)%nat
                       then Raised (mkExn ConnectionError "Connection refused")
                       else Normal 200%Z).

(** A second run: the catalog is there already. *)
Definition world_catalog_exists : world :=
  mkWorld (fun _ _ => Normal 200%Z) (Normal tt) (fun _ _ _ => Normal tt)
          (Normal tt)
          (fun _ => Raised (mkExn TrinoError
               "TrinoUserError(type=USER_ERROR, name=ALREADY_EXISTS, message=Catalog already exists)"))
          (Normal []) (Normal tt) (Normal tt).

(** The server rejects the DDL for another reason. *)
Definition world_ddl_rejected : world :=
  mkWorld (fun _ _ => Normal 200%Z) (Normal tt) (fun _ _ _ => Normal tt)
          (Normal tt)
          (fun _ => Raised (mkExn TrinoError "Access Denied: Cannot create catalog"))
          (Normal []) (Normal tt) (Normal tt).

(** Trino is not listening. *)
Definition world_trino_down : world :=
  mkWorld (fun _ _ => Normal 200%Z) (Normal tt)
          (fun _ _ _ => Raised (mkExn TrinoError "Connection refused"))
          (Normal tt) (fun _ => Normal tt) (Normal []) (Normal tt) (Normal tt).

(** The trino client is not installed. *)
Definition world_no_trino_module : world :=
  mkWorld (fun _ _ => Normal 200%Z)
          (Raised (mkExn ImportError "No module named 'trino'"))
          (fun _ _ _ => Normal tt)
          (Normal tt) (fun _ => Normal tt) (Normal []) (Normal tt) (Normal tt).

(** Every error the trino client raises is an [Exception]. *)
Definition trino_raises_Exception (w : world) : Prop :=
  (forall host port user, caught (dbapi_connect w host port user) = true) /\
  caught (conn_cursor w) = true /\
  (forall sql, caught (cursor_execute w sql) = true) /\
  caught (cursor_fetchall w) = true /\
  caught (cursor_close w) = true /\
  caught (conn_close w) = true.

(** Every error a GET raises is an [Exception]. *)
Definition get_raises_Exception (w : world) : Prop :=
  forall n url, caught (requests_get w n url) = true.

(** A run interrupted from the keyboard during the first GET. *)
Definition world_interrupted : world :=
  trino_ok (fun _ _ => Raised (mkExn KeyboardInterrupt "")).

(** [n] failed rounds of the readiness loop: a GET, then a sleep. *)
Fixpoint failed_rounds (url : string) (n : nat) : list event :=
  match n with
  | O => []
  | S k => EvGet url 5 :: EvSleep 2 :: failed_rounds url k
  end.

(** The events a run added to the trace, [st] being the state it started
    from and [st'] the state it ended in. *)
Definition events_since (st st' : state) : list event :=
  skipn (length (trace st)) (trace st').

(** The seconds that pass during the events [t]: [time.sleep(secs)] blocks
    for [secs] seconds and the [n]-th GET of the run for [latency n] seconds
    (the time until its response or its error); logging and printing take no
    time.  [n] is the number of GETs issued before [t]. *)
Fixpoint elapsed (latency : nat -> Z) (n : nat) (t : list event) : Z :=
  match t with
  | [] => 0
  | EvGet _ _ :: rest => latency n + elapsed latency (S n) rest
  | EvSleep secs :: rest => secs + elapsed latency n rest
  | _ :: rest => elapsed latency n rest
  end.

(** The seconds taken by the [k] GETs from the [n]-th on. *)
Fixpoint sum_latency (latency : nat -> Z) (n k : nat) : Z :=
  match k with
  | O => 0
  | S k' => latency n + sum_latency latency (S n) k'
  end.

(** Nothing listens behind the endpoint: every GET runs into its timeout. *)
Definition world_timeouts : world :=
  trino_ok (fun _ _ => Raised (mkExn Timeout "Connection to nginx timed out. (connect timeout=5)")).

(** [within m g s]: a run of [m] issues at most [g] GETs and sleeps at most
    [s] seconds, whatever its outcome. *)
Definition within {A} (m : M A) (g : nat) (s : Z) : Prop :=
  forall st r st', m st = (r, st') ->
    count_gets (trace st') <= count_gets (trace st) + g /\
    (seconds_slept (trace st') <= seconds_slept (trace st) + s)%Z.

(** [emits_only m ok]: a run of [m] adds to the trace only events that [ok]
    accepts. *)
Definition emits_only {A} (m : M A) (ok : event -> bool) : Prop :=
  forall st r st', m st = (r, st') ->
    exists evs, trace st' = (trace st ++ evs)%list /\ forallb ok evs = true.

(** What the readiness prober may do: enter itself, log, GET the health URL
    with a timeout of 5 seconds, sleep 2 seconds. *)
Definition prober_event (cfg : config) (ev : event) : bool :=
  match ev with
  | EvCall fn => String.eqb fn "wait_for_minio"
  | EvLog _ => true
  | EvGet url timeout => String.eqb url (health_url cfg) && (timeout =? 5)%Z
  | EvSleep secs => (secs =? 2)%Z
  | _ => false
  end.

(** What the catalog registrar may do: enter itself, import trino, log,
    connect to the configured host and port as user trino, open and close the
    cursor and the connection, fetch, and execute one of its two statements. *)
Definition registrar_event (cfg : config) (ev : event) : bool :=
  match ev with
  | EvCall fn => String.eqb fn "setup_trino_catalog"
  | EvImport modname => String.eqb modname "trino"
  | EvLog _ => true
  | EvConnect host port user =>
      String.eqb host (TRINO_HOST cfg) && (port =? TRINO_PORT cfg)%Z
      && String.eqb user "trino"
  | EvCursor | EvFetchall | EvCursorClose | EvConnClose => true
  | EvExecute sql =>
      String.eqb sql (create_catalog_sql cfg (catalog_name_of (WAREHOUSE_BUCKET cfg)))
      || String.eqb sql ("SHOW SCHEMAS FROM " ++ catalog_name_of (WAREHOUSE_BUCKET cfg))
  | _ => false
  end.

(** A configuration whose bucket name has no hyphen. *)
Definition plain_config : config :=
  mkConfig "http://minio:9000" "admin" "s3cr3t" "apilogs"
           "minio" "api_logs" "trino" 8080.

(** The health endpoint answers 503 four times, then 200. *)
Definition world_ready_fifth : world :=
  trino_ok (fun n _ => if (n <? 4)%nat then Normal 503%Z else Normal 200%Z).

(** The same readiness as [world_ready_fifth], with other failures: two
    refused connections, a timeout, a 404. *)
Definition world_ready_fifth_mixed : world :=
  trino_ok (fun n _ =>
              if (n <? 2)%nat then Raised (mkExn ConnectionError "Connection refused")
              else if (n =? 2)%nat then Raised (mkExn Timeout "Read timed out")
              else if (n =? 3)%nat then Normal 404%Z
              else Normal 200%Z).

(** Two failed GETs, then the run is interrupted from the keyboard. *)
Definition world_interrupted_third : world :=
  trino_ok (fun n _ => if (n <? 2)%nat then Normal 503%Z
                       else Raised (mkExn KeyboardInterrupt "")).

(** The DDL is accepted, the verification that follows is not. *)
Definition world_verify_fails : world :=
  mkWorld (fun _ _ => Normal 200%Z) (Normal tt) (fun _ _ _ => Normal tt)
          (Normal tt)
          (fun sql => if prefix "SHOW" sql
                      then Raised (mkExn TrinoError "Catalog 'api_logs' is not accessible")
                      else Normal tt)
          (Normal []) (Normal tt) (Normal tt).

(** MinIO never answers, Trino works. *)
Definition world_minio_down : world :=
  trino_ok (fun _ _ => Raised (mkExn ConnectionError "Connection refused")).

(* ================================================================== *)
(** ** Facts about the string operations *)
(* ================================================================== *)

Section StringFacts.

Example replace_api_logs : replace "-" "_" "api-logs" = "api_logs".
Proof. reflexivity. Qed.

Example replace_multi : replace "ab" "x" "aabab-abb" = "axx-xb".
Proof. reflexivity. Qed.

Example replace_empty_old : replace "" "-" "ab" = "-a-b-".
Proof. reflexivity. Qed.

Example lower_example : lower "Catalog ALREADY Exists" = "catalog already exists".
Proof. reflexivity. Qed.

Example squeeze_example :
  squeeze false ("  CREATE   CATALOG" ++ nl ++ "  x ") = " CREATE CATALOG x".
Proof. reflexivity. Qed.

Lemma append_assoc_s (a b c : string) : (a ++ b) ++ c = a ++ (b ++ c).
Proof. induction a as [|x a IH]; simpl; [reflexivity | now rewrite IH]. Qed.

Lemma append_empty_r (a : string) : a ++ "" = a.
Proof. induction a as [|x a IH]; simpl; [reflexivity | now rewrite IH]. Qed.

Lemma is_infix_refl (s : string) : is_infix s s.
Proof. exists "", "". simpl. now rewrite append_empty_r. Qed.

Lemma is_infix_trans (a b c : string) :
  is_infix a b -> is_infix b c -> is_infix a c.
Proof.
  intros (p1 & q1 & ->) (p2 & q2 & ->).
  exists (p2 ++ p1), (q1 ++ q2).
  now rewrite !append_assoc_s.
Qed.

Lemma is_infix_app_l (a s t : string) : is_infix a s -> is_infix a (s ++ t).
Proof.
  intros (p & r & ->). exists p, (r ++ t). now rewrite !append_assoc_s.
Qed.

Lemma is_infix_app_r (a s t : string) : is_infix a t -> is_infix a (s ++ t).
Proof.
  intros (p & r & ->). exists (s ++ p), r. now rewrite !append_assoc_s.
Qed.

Lemma prefix_spec (sub s : string) :
  prefix sub s = true <-> exists post, s = sub ++ post.
Proof.
  revert s; induction sub as [|a sub IH]; intros s; simpl.
  - destruct s; split; eauto.
  - destruct s as [|b s]; simpl.
    + split; [discriminate | intros (post & H); discriminate H].
    + destruct (ascii_dec a b) as [->|Hne].
      * rewrite IH. split; intros (post & H); exists post.
        -- now rewrite H.
        -- now injection H.
      * split; [discriminate | intros (post & H)].
        injection H as H1 _. now elim Hne.
Qed.

Lemma contains_spec (sub s : string) :
  contains sub s = true <-> is_infix sub s.
Proof.
  induction s as [|c s IH]; cbn [contains].
  - rewrite orb_false_r, prefix_spec. split.
    + intros (post & H). exists "", post. exact H.
    + intros (pre & post & H). destruct pre; simpl in H.
      * now exists post.
      * discriminate H.
  - rewrite orb_true_iff, prefix_spec, IH. split.
    + intros [(post & H) | (pre & post & H)].
      * exists "", post. exact H.
      * exists (String c pre), post. simpl. now rewrite H.
    + intros (pre & post & H). destruct pre as [|x pre]; simpl in H.
      * left. now exists post.
      * right. exists pre, post. now injection H.
Qed.

Lemma lower_app (a b : string) : lower (a ++ b) = lower a ++ lower b.
Proof. induction a as [|x a IH]; simpl; [reflexivity | now rewrite IH]. Qed.

Lemma lower_split (s x y : string) :
  lower s = x ++ y -> exists a b, s = a ++ b /\ lower a = x /\ lower b = y.
Proof.
  revert s; induction x as [|c x IH]; intros s H; simpl in H.
  - exists "", s. auto.
  - destruct s as [|d s]; simpl in H; [discriminate H|].
    injection H as Hc Hs. destruct (IH _ Hs) as (a & b & -> & Ha & Hb).
    exists (String d a), b. simpl. now rewrite Hc, Ha.
Qed.

Lemma contains_lower_spec (sub s : string) :
  contains sub (lower s) = true <-> ci_infix sub s.
Proof.
  rewrite contains_spec. split.
  - intros (pre & post & H).
    destruct (lower_split _ _ _ H) as (a & b & -> & _ & Hb).
    destruct (lower_split _ _ _ Hb) as (m & c & -> & Hm & _).
    now exists a, m, c.
  - intros (pre & mid & post & -> & <-).
    exists (lower pre), (lower post). now rewrite !lower_app.
Qed.

Lemma replace_hyphen_map (s : string) :
  replace "-" "_" s = map_str hyphen_to_underscore s.
Proof.
  unfold replace. induction s as [|c s IH]; [reflexivity|].
  cbn [replace_from map_str prefix]. unfold hyphen_to_underscore at 1.
  destruct (ascii_dec "-" c) as [<-|Hne].
  - simpl. rewrite IH. now destruct s.
  - destruct (Ascii.eqb_spec c "-") as [->|_]; [now elim Hne|].
    now rewrite IH.
Qed.

Lemma map_str_length f (s : string) : String.length (map_str f s) = String.length s.
Proof. induction s; simpl; congruence. Qed.

Lemma map_str_get f (s : string) (i : nat) :
  String.get i (map_str f s) = option_map f (String.get i s).
Proof.
  revert i; induction s as [|c s IH]; intros i; simpl; [reflexivity|].
  destruct i; simpl; [reflexivity | apply IH].
Qed.

Lemma hyphen_to_underscore_not_hyphen (c : ascii) :
  hyphen_to_underscore c <> "-"%char.
Proof.
  unfold hyphen_to_underscore.
  destruct (Ascii.eqb_spec c "-") as [->|Hne]; [discriminate | exact Hne].
Qed.

Lemma hyphen_to_underscore_idem (c : ascii) :
  hyphen_to_underscore (hyphen_to_underscore c) = hyphen_to_underscore c.
Proof.
  unfold hyphen_to_underscore.
  destruct (Ascii.eqb_spec c "-") as [->|Hne]; [reflexivity|].
  destruct (Ascii.eqb_spec c "-"); [contradiction | reflexivity].
Qed.

End StringFacts.

(* ================================================================== *)
(** ** The catalog name *)
(* ================================================================== *)

(** C3.  The catalog name derived from a bucket name has the length of the
    bucket name, carries at every position an underscore where the bucket name
    has a hyphen and the bucket's own character elsewhere, and has no hyphen
    at any position; for the bucket [api-logs] it is [api_logs]. *)
Theorem catalog_name_replaces_hyphens :
  forall bucket : string,
    String.length (catalog_name_of bucket) = String.length bucket /\
    (forall i : nat,
        String.get i (catalog_name_of bucket) =
        option_map (fun c => if Ascii.eqb c "-" then "_"%char else c)
                   (String.get i bucket)) /\
    (forall i : nat, String.get i (catalog_name_of bucket) <> Some "-"%char) /\
    contains "-" (catalog_name_of bucket) = false /\
    catalog_name_of "api-logs" = "api_logs".
Proof.
  intros bucket. unfold catalog_name_of. rewrite replace_hyphen_map.
  assert (Hget : forall i, String.get i (map_str hyphen_to_underscore bucket)
                           <> Some "-"%char).
  { intros i. rewrite map_str_get.
    destruct (String.get i bucket) as [c|]; simpl; [|discriminate].
    intros H. injection H. apply hyphen_to_underscore_not_hyphen. }
  repeat split.
  - apply map_str_length.
  - intros i. apply map_str_get.
  - exact Hget.
  - destruct (contains "-" (map_str hyphen_to_underscore bucket)) eqn:E;
      [|reflexivity].
    apply contains_spec in E. destruct E as (pre & post & E).
    exfalso. apply (Hget (String.length pre)). rewrite E.
    clear. induction pre as [|c pre IH]; simpl; [reflexivity | exact IH].
Qed.

(** C10.  Sanitizing a bucket name twice gives what sanitizing it once
    gives. *)
Theorem catalog_name_idempotent :
  forall bucket : string,
    catalog_name_of (catalog_name_of bucket) = catalog_name_of bucket.
Proof.
  intros bucket. unfold catalog_name_of. rewrite !replace_hyphen_map.
  induction bucket as [|c s IH]; simpl; [reflexivity|].
  now rewrite hyphen_to_underscore_idem, IH.
Qed.

(* ================================================================== *)
(** ** The readiness prober *)
(* ================================================================== *)

Section Prober.

Variable cfg : config.
Variable w : world.

Let url : string := health_url cfg.

Lemma extend_extend (e1 e2 : list event) (k1 k2 : nat) (st : state) :
  extend e2 k2 (extend e1 k1 st) = extend (e1 ++ e2) (k2 + k1) st.
Proof.
  unfold extend; simpl. f_equal.
  - now rewrite <- app_assoc.
  - lia.
Qed.

(** One round of the loop, by the answer of its GET. *)
Lemma round_eval (i : nat) (st : state) :
  round cfg w i st =
  match requests_get w (gets st) url with
  | Normal status_code =>
      if (status_code =? 200)%Z
      then (Normal (Some true),
            extend [EvGet url 5; EvLog "MinIO cluster is ready"] 1 st)
      else (Normal None, extend [EvGet url 5; EvSleep 2] 1 st)
  | Raised e =>
      if is_Exception e
      then (Normal None, extend [EvGet url 5; EvSleep 2] 1 st)
      else (Raised e, extend [EvGet url 5] 1 st)
  end.
Proof.
  unfold round, probe, try_except, bind, http_get, log, sleep, emit, ret, extend.
  fold url. simpl.
  destruct (requests_get w (gets st) url) as [c|e]; simpl.
  - destruct (c =? 200)%Z; simpl; now rewrite <- app_assoc.
  - destruct (is_Exception e); simpl; [now rewrite <- app_assoc | reflexivity].
Qed.

Lemma round_fails (i : nat) (st : state) :
  ready (requests_get w (gets st) url) = false ->
  caught (requests_get w (gets st) url) = true ->
  round cfg w i st = (Normal None, extend [EvGet url 5; EvSleep 2] 1 st).
Proof.
  intros Hr Hc. rewrite round_eval.
  destruct (requests_get w (gets st) url) as [c|e]; simpl in *.
  - now rewrite Hr.
  - now rewrite Hc.
Qed.

(** When no GET of the window is answered by a 200 and every error is
    caught, the loop runs all its rounds. *)
Lemma loop_all_fail (n a : nat) (st : state) :
  (forall i, i < n -> ready (requests_get w (i + gets st) url) = false) ->
  (forall i, i < n -> caught (requests_get w (i + gets st) url) = true) ->
  for_each (seq a n) (round cfg w) st =
  (Normal None, extend (failed_rounds url n) n st).
Proof.
  revert a st; induction n as [|n IH]; intros a st Hr Hc.
  - unfold extend, ret; simpl. rewrite app_nil_r. now destruct st.
  - cbn [seq for_each]. unfold bind at 1.
    rewrite round_fails by (apply (Hr 0) || apply (Hc 0); lia).
    rewrite IH.
    + rewrite extend_extend. do 2 f_equal. lia.
    + intros i Hi. simpl. replace (i + S (gets st)) with (S i + gets st) by lia.
      apply Hr. lia.
    + intros i Hi. simpl. replace (i + S (gets st)) with (S i + gets st) by lia.
      apply Hc. lia.
Qed.

(** When the GET of round [j] is the first one answered by a 200, the loop
    returns [True] in that round. *)
Lemma loop_first_ready (j n a : nat) (st : state) :
  j < n ->
  ready (requests_get w (j + gets st) url) = true ->
  (forall i, i < j -> ready (requests_get w (i + gets st) url) = false) ->
  (forall i, i < j -> caught (requests_get w (i + gets st) url) = true) ->
  for_each (seq a n) (round cfg w) st =
  (Normal (Some true),
   extend (failed_rounds url j ++ [EvGet url 5; EvLog "MinIO cluster is ready"])
          (S j) st).
Proof.
  revert n a st; induction j as [|j IH]; intros n a st Hj H200 Hr Hc;
    (destruct n as [|n]; [lia|]); cbn [seq for_each]; unfold bind at 1.
  - rewrite round_eval. simpl in H200.
    destruct (requests_get w (gets st) url) as [c|e]; simpl in H200;
      [|discriminate]. now rewrite H200.
  - rewrite round_fails by (apply (Hr 0) || apply (Hc 0); lia).
    rewrite (IH n (S a)).
    + rewrite extend_extend. do 2 f_equal. lia.
    + lia.
    + simpl. replace (j + S (gets st)) with (S j + gets st) by lia. exact H200.
    + intros i Hi. simpl. replace (i + S (gets st)) with (S i + gets st) by lia.
      apply Hr. lia.
    + intros i Hi. simpl. replace (i + S (gets st)) with (S i + gets st) by lia.
      apply Hc. lia.
Qed.

(** Either no index below [n] satisfies [p], or there is a first one. *)
Lemma first_index (p : nat -> bool) (n : nat) :
  (forall i, i < n -> p i = false) \/
  (exists j, j < n /\ p j = true /\ forall i, i < j -> p i = false).
Proof.
  induction n as [|n [IH | (j & Hj & Hp & Hlt)]].
  - left. intros i Hi. lia.
  - destruct (p n) eqn:E.
    + right. exists n. repeat split; [lia | exact E | exact IH].
    + left. intros i Hi. destruct (Nat.eq_dec i n) as [->|]; [exact E|].
      apply IH. lia.
  - right. exists j. repeat split; [lia | exact Hp | exact Hlt].
Qed.

(** [wait_for_minio], once the outcome of its loop is known. *)
Lemma wait_for_minio_eval (st st' : state) (r : option bool) :
  for_each (seq 0 60) (round cfg w)
           (extend [EvCall "wait_for_minio";
                    EvLog "Waiting for MinIO cluster to be ready..."] 0 st)
  = (Normal r, st') ->
  wait_for_minio cfg w st =
  match r with
  | Some b => (Normal b, st')
  | None => (Normal false,
             extend [EvLog "Warning: MinIO health check timed out"] 0 st')
  end.
Proof.
  intros H. unfold wait_for_minio, bind, log, emit, ret.
  unfold extend in H; simpl in H |- *. rewrite <- app_assoc; simpl.
  rewrite H. now destruct r.
Qed.

End Prober.

Lemma count_gets_app (a b : list event) :
  count_gets (a ++ b) = count_gets a + count_gets b.
Proof.
  induction a as [|ev a IH]; simpl; [reflexivity|].
  destruct ev; simpl; rewrite IH; reflexivity.
Qed.

Lemma seconds_slept_app (a b : list event) :
  seconds_slept (a ++ b) = (seconds_slept a + seconds_slept b)%Z.
Proof.
  induction a as [|ev a IH]; simpl; [reflexivity|].
  destruct ev; simpl; rewrite IH; lia.
Qed.

Lemma count_gets_failed_rounds (url : string) (n : nat) :
  count_gets (failed_rounds url n) = n.
Proof. induction n; simpl; congruence. Qed.

Lemma seconds_slept_failed_rounds (url : string) (n : nat) :
  seconds_slept (failed_rounds url n) = (2 * Z.of_nat n)%Z.
Proof. induction n as [|n IH]; [reflexivity|]. cbn [failed_rounds seconds_slept]. lia. Qed.

(** C2.  When every error raised by the GETs of the attempt budget is an
    [Exception] (as the transport errors are), [wait_for_minio] returns a
    boolean, never an exception, and it returns [True] exactly when one of
    the 60 GETs is answered by a response with status 200. *)
Theorem wait_for_minio_true_iff_200 :
  forall (cfg : config) (w : world) (st : state),
    (forall i, i < 60 ->
       caught (requests_get w (i + gets st) (health_url cfg)) = true) ->
    (exists b : bool, fst (wait_for_minio cfg w st) = Normal b) /\
    (fst (wait_for_minio cfg w st) = Normal true <->
     exists i, i < 60 /\
       requests_get w (i + gets st) (health_url cfg) = Normal 200%Z).
Proof.
  intros cfg w st Hc.
  set (st0 := extend [EvCall "wait_for_minio";
                      EvLog "Waiting for MinIO cluster to be ready..."] 0 st).
  assert (Hg : gets st0 = gets st) by reflexivity.
  destruct (first_index
              (fun i => ready (requests_get w (i + gets st) (health_url cfg))) 60)
    as [Hno | (j & Hj & H200 & Hbefore)].
  - rewrite (wait_for_minio_eval cfg w st _ None
               (loop_all_fail cfg w 60 0 st0 Hno Hc)).
    split; [now exists false|]. split; [discriminate|].
    intros (i & Hi & Hget). specialize (Hno i Hi). simpl in Hno.
    rewrite Hget in Hno. discriminate Hno.
  - assert (Hcj : forall i, i < j ->
               caught (requests_get w (i + gets st0) (health_url cfg)) = true)
      by (intros i Hi; apply Hc; lia).
    rewrite (wait_for_minio_eval cfg w st _ (Some true)
               (loop_first_ready cfg w j 60 0 st0 Hj H200 Hbefore Hcj)).
    split; [now exists true|]. split; [|reflexivity].
    intros _. exists j. split; [exact Hj|]. simpl in H200.
    destruct (requests_get w (j + gets st) (health_url cfg)) as [c|e];
      simpl in H200; [|discriminate].
    apply Z.eqb_eq in H200. now subst c.
Qed.

Lemma wait_for_minio_true_iff_200_witness :
  (exists b : bool,
      fst (wait_for_minio default_config world_ready_third init_state) = Normal b) /\
  (fst (wait_for_minio default_config world_ready_third init_state) = Normal true <->
   exists i, i < 60 /\
     requests_get world_ready_third (i + gets init_state)
                  (health_url default_config) = Normal 200%Z).
Proof.
  apply (wait_for_minio_true_iff_200 default_config world_ready_third init_state).
  intros i _. simpl. destruct (_ <? _)%nat; reflexivity.
Defined.

(** The transport errors are among the errors [except Exception] catches. *)
Lemma transport_error_caught (e : exn) :
  is_transport_error e = true -> is_Exception e = true.
Proof. unfold is_transport_error, is_Exception. now destruct (exn_cls e). Qed.

(** What [except Exception] does not catch leaves the prober as an
    exception. *)
Example wait_for_minio_interrupted :
  fst (wait_for_minio default_config world_interrupted init_state)
  = Raised (mkExn KeyboardInterrupt "").
Proof. reflexivity. Qed.

Example wait_for_minio_ready_third :
  fst (wait_for_minio default_config world_ready_third init_state) = Normal true
  /\ count_gets (trace (snd (wait_for_minio default_config world_ready_third
                                            init_state))) = 3.
Proof. split; reflexivity. Qed.

Lemma skipn_app_length {A} (a b : list A) : skipn (length a) (a ++ b) = b.
Proof. induction a as [|x a IH]; [reflexivity | exact IH]. Qed.

Lemma elapsed_failed_rounds (latency : nat -> Z) (url : string) (k n : nat)
      (rest : list event) :
  elapsed latency n (failed_rounds url k ++ rest) =
  (2 * Z.of_nat k + sum_latency latency n k + elapsed latency (k + n) rest)%Z.
Proof.
  revert n; induction k as [|k IH]; intros n; [cbn; lia|].
  cbn [failed_rounds app elapsed sum_latency]. rewrite IH.
  replace (k + S n) with (S k + n) by lia. lia.
Qed.

Lemma sum_latency_nonneg (latency : nat -> Z) (n k : nat) :
  (forall i, 0 <= latency i)%Z -> (0 <= sum_latency latency n k)%Z.
Proof.
  intros H. revert n; induction k as [|k IH]; intros n; cbn [sum_latency];
    [lia|]. specialize (IH (S n)). specialize (H n). lia.
Qed.

(** C7, as the code has it.  When no GET of the attempt budget is answered
    by a 200 (and every error raised is caught), [wait_for_minio] returns
    [False] after exactly 60 GETs, each followed by a sleep of 2 seconds:
    60 * 2 seconds of sleep in all.  The time that passes is these 120
    seconds plus the time the 60 GETs take, for whatever time each of them
    takes; it is 120 seconds at least. *)
Theorem wait_for_minio_exhausts_budget :
  forall (cfg : config) (w : world) (st : state),
    (forall i, i < 60 ->
       ready (requests_get w (i + gets st) (health_url cfg)) = false) ->
    (forall i, i < 60 ->
       caught (requests_get w (i + gets st) (health_url cfg)) = true) ->
    fst (wait_for_minio cfg w st) = Normal false /\
    trace (snd (wait_for_minio cfg w st)) =
      (trace st
       ++ [EvCall "wait_for_minio";
           EvLog "Waiting for MinIO cluster to be ready..."]
       ++ failed_rounds (health_url cfg) 60
       ++ [EvLog "Warning: MinIO health check timed out"])%list /\
    count_gets (trace (snd (wait_for_minio cfg w st))) =
      count_gets (trace st) + 60 /\
    seconds_slept (trace (snd (wait_for_minio cfg w st))) =
      (seconds_slept (trace st) + 60 * 2)%Z /\
    (forall latency : nat -> Z,
        elapsed latency (gets st)
                (events_since st (snd (wait_for_minio cfg w st))) =
        (60 * 2 + sum_latency latency (gets st) 60)%Z) /\
    (forall latency : nat -> Z,
        (forall i, 0 <= latency i)%Z ->
        (60 * 2 <= elapsed latency (gets st)
                      (events_since st (snd (wait_for_minio cfg w st))))%Z).
Proof.
  intros cfg w st Hr Hc.
  set (st0 := extend [EvCall "wait_for_minio";
                      EvLog "Waiting for MinIO cluster to be ready..."] 0 st).
  rewrite (wait_for_minio_eval cfg w st _ None
             (loop_all_fail cfg w 60 0 st0 Hr Hc)).
  assert (Ht : trace (extend [EvLog "Warning: MinIO health check timed out"] 0
                        (extend (failed_rounds (health_url cfg) 60) 60 st0)) =
               (trace st
                ++ [EvCall "wait_for_minio";
                    EvLog "Waiting for MinIO cluster to be ready..."]
                ++ failed_rounds (health_url cfg) 60
                ++ [EvLog "Warning: MinIO health check timed out"])%list).
  { unfold st0, extend. cbn [trace]. now rewrite <- !app_assoc. }
  assert (He : forall latency : nat -> Z,
             elapsed latency (gets st)
               (events_since st
                  (extend [EvLog "Warning: MinIO health check timed out"] 0
                     (extend (failed_rounds (health_url cfg) 60) 60 st0))) =
             (60 * 2 + sum_latency latency (gets st) 60)%Z).
  { intros latency. unfold events_since. rewrite Ht, skipn_app_length.
    cbn [app elapsed]. rewrite elapsed_failed_rounds. cbn [elapsed]. lia. }
  cbn [fst snd]. rewrite Ht. split; [reflexivity|]. split; [reflexivity|].
  split; [|split; [|split]].
  - rewrite !count_gets_app, count_gets_failed_rounds.
    cbn [count_gets]. lia.
  - rewrite !seconds_slept_app, seconds_slept_failed_rounds.
    cbn [seconds_slept]. lia.
  - exact He.
  - intros latency Hpos. rewrite He.
    pose proof (sum_latency_nonneg latency (gets st) 60 Hpos). lia.
Qed.

Lemma wait_for_minio_exhausts_budget_witness :
  fst (wait_for_minio default_config world_503 init_state) = Normal false /\
  trace (snd (wait_for_minio default_config world_503 init_state)) =
    (trace init_state
     ++ [EvCall "wait_for_minio";
         EvLog "Waiting for MinIO cluster to be ready..."]
     ++ failed_rounds (health_url default_config) 60
     ++ [EvLog "Warning: MinIO health check timed out"])%list /\
  count_gets (trace (snd (wait_for_minio default_config world_503 init_state))) =
    count_gets (trace init_state) + 60 /\
  seconds_slept (trace (snd (wait_for_minio default_config world_503 init_state))) =
    (seconds_slept (trace init_state) + 60 * 2)%Z /\
  (forall latency : nat -> Z,
      elapsed latency (gets init_state)
              (events_since init_state
                 (snd (wait_for_minio default_config world_503 init_state))) =
      (60 * 2 + sum_latency latency (gets init_state) 60)%Z) /\
  (forall latency : nat -> Z,
      (forall i, 0 <= latency i)%Z ->
      (60 * 2 <= elapsed latency (gets init_state)
                    (events_since init_state
                       (snd (wait_for_minio default_config world_503
                                            init_state))))%Z).
Proof.
  apply (wait_for_minio_exhausts_budget default_config world_503 init_state);
    intros i _; reflexivity.
Defined.

(** C7, as it is written, fails where the endpoint does not answer: when
    each of the 60 GETs runs into its timeout of 5 seconds, the prober
    returns [False] after 60 GETs and 60 * (2 + 5) = 420 seconds, more than
    three times the 60 * 2 seconds of the claim. *)
Lemma wait_for_minio_timeouts_take_420_seconds :
  fst (wait_for_minio default_config world_timeouts init_state) = Normal false /\
  count_gets (trace (snd (wait_for_minio default_config world_timeouts
                                         init_state))) = 60 /\
  elapsed (fun _ => 5%Z) 0
          (events_since init_state
             (snd (wait_for_minio default_config world_timeouts init_state)))
  = (60 * (2 + 5))%Z /\
  (3 * (60 * 2) <
   elapsed (fun _ => 5%Z) 0
           (events_since init_state
              (snd (wait_for_minio default_config world_timeouts init_state))))%Z.
Proof.
  repeat split; vm_compute; reflexivity.
Qed.

(* ================================================================== *)
(** ** The catalog registrar *)
(* ================================================================== *)

(** The goal is that the exception of a pair [(Raised e', _) = (Raised e, _)]
    is caught, and [H] says that [e'] is. *)
Ltac raised_by H :=
  let Heq := fresh "Heq" in
  intros Heq; apply (f_equal fst) in Heq; simpl in Heq;
  injection Heq as <-; exact H.

(** The next call of the body under evaluation: it returns, or it raises an
    exception that [H] says is caught. *)
Ltac on_call H :=
  lazymatch goal with
  | |- context [match ?r with Normal _ => _ | Raised _ => _ end] =>
      let C := fresh "C" in
      assert (C : caught r = true) by apply H;
      destruct r as [?|?]; simpl; [|raised_by C]
  end.

Section Registrar.

Variable cfg : config.
Variable w : world.

Let name : string := catalog_name_of (WAREHOUSE_BUCKET cfg).

(** The state in which the [try] statement is entered. *)
Let entered (st : state) : state :=
  extend [EvCall "setup_trino_catalog"; EvImport "trino";
          EvLog "Setting up Trino catalog..."] 0 st.

(** The registrar after a successful import: the [try] statement, then
    [return catalog_name]. *)
Lemma setup_trino_catalog_eval (st : state) :
  import_trino w = Normal tt ->
  setup_trino_catalog cfg w st =
  match try_except (setup_try cfg w name) (setup_except name) (entered st) with
  | (Normal _, st') => (Normal name, st')
  | (Raised e, st') => (Raised e, st')
  end.
Proof.
  intros Himp.
  unfold setup_trino_catalog, extern, bind, emit, lift, log, ret, entered, extend.
  rewrite Himp. simpl. fold name. now rewrite <- !app_assoc.
Qed.

(** A failed import leaves the registrar before the [try] statement is
    entered. *)
Lemma setup_trino_catalog_import_fails (st : state) (e : exn) :
  import_trino w = Raised e ->
  setup_trino_catalog cfg w st =
  (Raised e, extend [EvCall "setup_trino_catalog"; EvImport "trino"] 0 st).
Proof.
  intros Himp.
  unfold setup_trino_catalog, extern, bind, emit, lift, extend.
  rewrite Himp. simpl. now rewrite <- !app_assoc.
Qed.

(** The [except] clause returns, whatever the exception. *)
Lemma setup_except_eval (e : exn) (st : state) :
  setup_except name e st =
  (Normal tt,
   extend (if says_already_exists e
           then [EvLog ("Trino catalog '" ++ name ++ "' already exists")]
           else [EvLog ("Warning: Could not create Trino catalog: " ++ exn_msg e);
                 EvLog "You may need to create the catalog manually"]) 0 st).
Proof.
  unfold setup_except, log, bind, emit, extend.
  destruct (says_already_exists e); simpl; [reflexivity|].
  now rewrite <- app_assoc.
Qed.

(** Every exception the body of the [try] statement raises was raised by
    one of its calls. *)
Lemma setup_try_caught (st st' : state) (e : exn) :
  trino_raises_Exception w ->
  setup_try cfg w name st = (Raised e, st') ->
  is_Exception e = true.
Proof.
  intros (Hconn & Hcur & Hexe & Hfetch & Hcc & Hnc).
  unfold setup_try, connect, open_cursor, execute, fetchall, close_cursor,
    close_conn, extern, bind, emit, lift, modify, log, ret.
  simpl.
  on_call Hconn. on_call Hcur. on_call Hexe. on_call Hexe. on_call Hfetch.
  match goal with |- context [first_columns ?r] => rename r into rows end.
  destruct (first_columns rows) as [cols|e6] eqn:Hcols; simpl.
  - on_call Hcc. on_call Hnc. discriminate.
  - intros Heq. apply (f_equal fst) in Heq. simpl in Heq. injection Heq as <-.
    clear - Hcols.
    induction rows as [|[|c r] rows IH]; simpl in Hcols.
    + discriminate.
    + now injection Hcols as <-.
    + destruct (first_columns rows); [discriminate|].
      injection Hcols as <-. now apply IH.
Qed.

End Registrar.

(** Once the trino module is imported and the client raises only
    [Exception]s, the registrar returns. *)
Lemma setup_trino_catalog_returns (cfg : config) (w : world) (st : state) :
  import_trino w = Normal tt ->
  trino_raises_Exception w ->
  exists st',
    setup_trino_catalog cfg w st =
    (Normal (catalog_name_of (WAREHOUSE_BUCKET cfg)), st').
Proof.
  intros Himp Htame.
  rewrite setup_trino_catalog_eval by exact Himp.
  unfold try_except.
  destruct (setup_try cfg w _ _) as [[[]|e] st'] eqn:E; simpl; [now eexists|].
  rewrite (setup_try_caught cfg w _ _ e Htame E).
  rewrite setup_except_eval. now eexists.
Qed.

(** C5.  Once the trino module is imported, the registrar returns the
    sanitized bucket name whatever the client's calls answer: when the DDL
    succeeds, when it fails with an error that says "already exists" and when
    it fails with any other error. *)
Theorem setup_trino_catalog_returns_catalog_name :
  forall (cfg : config) (w : world) (st : state),
    import_trino w = Normal tt ->
    trino_raises_Exception w ->
    fst (setup_trino_catalog cfg w st) =
    Normal (catalog_name_of (WAREHOUSE_BUCKET cfg)).
Proof.
  intros cfg w st Himp Htame.
  destruct (setup_trino_catalog_returns cfg w st Himp Htame) as (st' & ->).
  reflexivity.
Qed.

Lemma setup_trino_catalog_returns_catalog_name_witness :
  fst (setup_trino_catalog default_config world_503 init_state) = Normal "api_logs"
  /\ fst (setup_trino_catalog default_config world_catalog_exists init_state)
     = Normal "api_logs"
  /\ fst (setup_trino_catalog default_config world_ddl_rejected init_state)
     = Normal "api_logs".
Proof.
  split; [|split].
  - apply (setup_trino_catalog_returns_catalog_name default_config world_503);
      [reflexivity | repeat split; intros; reflexivity].
  - apply (setup_trino_catalog_returns_catalog_name default_config
             world_catalog_exists);
      [reflexivity | repeat split; intros; reflexivity].
  - apply (setup_trino_catalog_returns_catalog_name default_config
             world_ddl_rejected);
      [reflexivity | repeat split; intros; reflexivity].
Defined.

(** C6.  An exception [e] raised inside the [try] statement of the registrar
    does not leave it: the registrar returns the catalog name.  When the
    message of [e] contains "already exists", letter case ignored, the only
    line logged after the failure is the one that reports the catalog as
    existing; otherwise the two lines of the warning are logged. *)
Theorem setup_trino_catalog_classifies_error :
  forall (cfg : config) (w : world) (st st' : state) (e : exn),
    import_trino w = Normal tt ->
    setup_try cfg w (catalog_name_of (WAREHOUSE_BUCKET cfg))
              (extend [EvCall "setup_trino_catalog"; EvImport "trino";
                       EvLog "Setting up Trino catalog..."] 0 st)
    = (Raised e, st') ->
    is_Exception e = true ->
    fst (setup_trino_catalog cfg w st) =
      Normal (catalog_name_of (WAREHOUSE_BUCKET cfg)) /\
    (ci_infix "already exists" (exn_msg e) ->
     trace (snd (setup_trino_catalog cfg w st)) =
       (trace st'
        ++ [EvLog ("Trino catalog '" ++ catalog_name_of (WAREHOUSE_BUCKET cfg)
                   ++ "' already exists")])%list) /\
    (~ ci_infix "already exists" (exn_msg e) ->
     trace (snd (setup_trino_catalog cfg w st)) =
       (trace st'
        ++ [EvLog ("Warning: Could not create Trino catalog: " ++ exn_msg e);
            EvLog "You may need to create the catalog manually"])%list).
Proof.
  intros cfg w st st' e Himp Hbody Hexc.
  rewrite setup_trino_catalog_eval by exact Himp.
  unfold try_except. rewrite Hbody, Hexc, setup_except_eval.
  cbn [fst snd]. unfold extend; cbn [trace].
  pose proof (contains_lower_spec "already exists" (exn_msg e)) as Hci.
  fold (says_already_exists e) in Hci.
  split; [reflexivity|]. split; intros H.
  - apply Hci in H. now rewrite H.
  - destruct (says_already_exists e); [|reflexivity].
    elim H. now apply Hci.
Qed.

Lemma setup_trino_catalog_classifies_error_witness :
  fst (setup_trino_catalog default_config world_catalog_exists init_state) =
    Normal "api_logs" /\
  logged (trace (snd (setup_trino_catalog default_config world_catalog_exists
                                          init_state))) =
    ["Setting up Trino catalog..."; "Creating Trino catalog: api_logs";
     "Trino catalog 'api_logs' already exists"].
Proof.
  pose proof
    (setup_trino_catalog_classifies_error default_config world_catalog_exists
       init_state _ _ eq_refl eq_refl eq_refl) as (Hret & Hyes & _).
  split; [exact Hret|].
  rewrite Hyes; [reflexivity|].
  apply contains_lower_spec. reflexivity.
Defined.

Example already_exists_any_case :
  says_already_exists (mkExn TrinoError "Catalog 'api_logs' ALREADY Exists") = true
  /\ says_already_exists (mkExn TrinoError "Access Denied") = false.
Proof. split; reflexivity. Qed.

(** What [except Exception] does not catch leaves the registrar. *)
Example setup_trino_catalog_import_error :
  fst (setup_trino_catalog default_config world_no_trino_module init_state)
  = Raised (mkExn ImportError "No module named 'trino'").
Proof. reflexivity. Qed.

(** *** The connection and the cursor *)

Section Resources.

Variable cfg : config.
Variable w : world.

Let name : string := catalog_name_of (WAREHOUSE_BUCKET cfg).

(** When every call of the [try] statement returns, the registrar returns
    with the cursor and the connection closed. *)
Lemma setup_trino_catalog_closes_on_success (st : state) (rows : list (list string))
      (cols : list string) :
  import_trino w = Normal tt ->
  dbapi_connect w (TRINO_HOST cfg) (TRINO_PORT cfg) "trino" = Normal tt ->
  conn_cursor w = Normal tt ->
  cursor_execute w (create_catalog_sql cfg name) = Normal tt ->
  cursor_execute w ("SHOW SCHEMAS FROM " ++ name) = Normal tt ->
  cursor_fetchall w = Normal rows ->
  first_columns rows = Normal cols ->
  cursor_close w = Normal tt ->
  conn_close w = Normal tt ->
  fst (setup_trino_catalog cfg w st) = Normal name /\
  conn_open (snd (setup_trino_catalog cfg w st)) = false /\
  cursor_open (snd (setup_trino_catalog cfg w st)) = false.
Proof.
  intros Himp H1 H2 H3 H4 H5 H6 H7 H8.
  rewrite setup_trino_catalog_eval by exact Himp. fold name.
  unfold try_except, setup_try, connect, open_cursor, execute, fetchall,
    close_cursor, close_conn, extern, bind, emit, lift, modify, log, ret.
  cbn [trace gets conn_open cursor_open extend set_conn set_cursor].
  rewrite H1, H2, H3, H4, H5, H6, H7, H8. now cbn.
Qed.

(** When the DDL raises, the registrar returns with the cursor and the
    connection still open: [cursor.close()] and [conn.close()] are the last
    statements inside the [try] block and are skipped. *)
Lemma setup_trino_catalog_open_after_ddl_error (st : state) (e : exn) :
  import_trino w = Normal tt ->
  dbapi_connect w (TRINO_HOST cfg) (TRINO_PORT cfg) "trino" = Normal tt ->
  conn_cursor w = Normal tt ->
  cursor_execute w (create_catalog_sql cfg name) = Raised e ->
  is_Exception e = true ->
  fst (setup_trino_catalog cfg w st) = Normal name /\
  conn_open (snd (setup_trino_catalog cfg w st)) = true /\
  cursor_open (snd (setup_trino_catalog cfg w st)) = true.
Proof.
  intros Himp H1 H2 H3 Hexc.
  rewrite setup_trino_catalog_eval by exact Himp. fold name.
  unfold try_except, setup_try, connect, open_cursor, execute,
    extern, bind, emit, lift, modify, log, ret.
  cbn [trace gets conn_open cursor_open extend set_conn set_cursor].
  rewrite H1, H2, H3. cbn. rewrite Hexc, setup_except_eval. now cbn.
Qed.

End Resources.

(** C1.  On a second run the DDL fails with "already exists"; the registrar
    returns the catalog name while the connection and the cursor it opened
    are both still open, and neither [close] was called. *)
Theorem setup_trino_catalog_leaves_connection_open :
  let r := setup_trino_catalog default_config world_catalog_exists init_state in
  fst r = Normal "api_logs" /\
  conn_open (snd r) = true /\
  cursor_open (snd r) = true /\
  In (EvConnect "trino" 8080 "trino") (trace (snd r)) /\
  ~ In EvCursorClose (trace (snd r)) /\
  ~ In EvConnClose (trace (snd r)).
Proof.
  cbv zeta. repeat split; try reflexivity.
  - vm_compute. tauto.
  - vm_compute. intuition discriminate.
  - vm_compute. intuition discriminate.
Qed.

Example setup_trino_catalog_success_closes :
  let r := setup_trino_catalog default_config world_503 init_state in
  fst r = Normal "api_logs" /\ conn_open (snd r) = false /\
  cursor_open (snd r) = false.
Proof. repeat split; reflexivity. Qed.

(* ================================================================== *)
(** ** The entry point *)
(* ================================================================== *)

Section Calls.

Lemma calls_app (a b : list event) : calls (a ++ b) = (calls a ++ calls b)%list.
Proof.
  induction a as [|ev a IH]; simpl; [reflexivity|].
  destruct ev; simpl; rewrite IH; reflexivity.
Qed.

Lemma enters_ret {A} (a : A) : enters (ret a) [].
Proof. intros st r st' [= <- <-]. now rewrite app_nil_r. Qed.

Lemma enters_lift {A} (x : result A) : enters (lift x) [].
Proof. intros st r st' [= <- <-]. now rewrite app_nil_r. Qed.

Lemma enters_emit (ev : event) : enters (emit ev) (calls [ev]).
Proof. intros st r st' [= <- <-]. simpl. apply calls_app. Qed.

Lemma enters_modify (f : state -> state) :
  (forall st, trace (f st) = trace st) -> enters (modify f) [].
Proof. intros Hf st r st' [= <- <-]. now rewrite Hf, app_nil_r. Qed.

Lemma enters_bind {A B} (m : M A) (k : A -> M B) (cs : list string) :
  enters m cs -> (forall a, enters (k a) []) -> enters (bind m k) cs.
Proof.
  intros Hm Hk st r st'. unfold bind.
  destruct (m st) as [[a|e] st1] eqn:E; intros H.
  - rewrite (Hk a _ _ _ H), (Hm _ _ _ E). now rewrite app_nil_r.
  - injection H as <- <-. exact (Hm _ _ _ E).
Qed.

Lemma enters_try_except {A} (body : M A) (handler : exn -> M A) :
  enters body [] -> (forall e, enters (handler e) []) ->
  enters (try_except body handler) [].
Proof.
  intros Hb Hh st r st'. unfold try_except.
  destruct (body st) as [[a|e] st1] eqn:E.
  - intros [= <- <-]. exact (Hb _ _ _ E).
  - destruct (is_Exception e); intros H.
    + rewrite (Hh e _ _ _ H), (Hb _ _ _ E). now rewrite app_nil_r.
    + injection H as <- <-. exact (Hb _ _ _ E).
Qed.

Lemma enters_for_each {A B} (xs : list A) (body : A -> M (option B)) :
  (forall x, enters (body x) []) -> enters (for_each xs body) [].
Proof.
  intros Hb. induction xs as [|x xs IH]; cbn [for_each].
  - apply enters_ret.
  - apply enters_bind; [apply Hb|]. intros [b|]; [apply enters_ret | exact IH].
Qed.

Variable cfg : config.
Variable w : world.

Lemma enters_http_get (url : string) (timeout : Z) :
  enters (http_get w url timeout) [].
Proof. intros st r st' [= <- <-]. cbn [trace]. now rewrite calls_app. Qed.

Lemma enters_extern {A} (ev : event) (x : result A) :
  calls [ev] = [] -> enters (extern ev x) [].
Proof.
  intros Hev. unfold extern. apply enters_bind.
  - rewrite <- Hev. apply enters_emit.
  - intros _. apply enters_lift.
Qed.

End Calls.

(** Solves [enters m cs] for the straight-line code of the script. *)
Ltac enters_tac :=
  repeat first
    [ apply enters_ret
    | apply enters_lift
    | apply enters_http_get
    | apply enters_extern; reflexivity
    | apply (enters_emit (EvLog _))
    | apply (enters_emit (EvPrint _))
    | apply (enters_emit (EvSleep _))
    | apply (enters_emit (EvCall _))
    | apply enters_modify; reflexivity
    | apply enters_for_each; intros ?
    | apply enters_try_except; [|intros ?]
    | apply enters_bind; [|intros ?]
    | match goal with
      | |- enters (match ?x with _ => _ end) _ => destruct x
      | |- enters (if ?x then _ else _) _ => destruct x
      end ].

Section Main.

Variable cfg : config.
Variable w : world.

Lemma wait_for_minio_enters : enters (wait_for_minio cfg w) ["wait_for_minio"].
Proof.
  unfold wait_for_minio, round, probe, log, sleep. enters_tac.
Qed.

Lemma setup_trino_catalog_enters :
  enters (setup_trino_catalog cfg w) ["setup_trino_catalog"].
Proof.
  unfold setup_trino_catalog, setup_try, setup_except, connect, open_cursor,
    execute, fetchall, close_cursor, close_conn, log.
  enters_tac.
Qed.

Lemma print_instructions_eval (catalog_name : string) (st : state) :
  print_instructions cfg catalog_name st =
  (Normal tt,
   extend [EvCall "print_instructions";
           EvPrint (nl ++ str_repeat "=" 70);
           EvPrint "SETUP COMPLETE";
           EvPrint (str_repeat "=" 70);
           EvPrint (instructions cfg catalog_name);
           EvPrint (str_repeat "=" 70)] 0 st).
Proof.
  unfold print_instructions, print, bind, emit, extend. cbn [trace gets conn_open cursor_open].
  now rewrite <- !app_assoc.
Qed.

(** Every error a GET raises is caught: the prober returns. *)
Lemma wait_for_minio_returns (st : state) :
  get_raises_Exception w ->
  exists b st', wait_for_minio cfg w st = (Normal b, st').
Proof.
  intros Hc.
  set (st0 := extend [EvCall "wait_for_minio";
                      EvLog "Waiting for MinIO cluster to be ready..."] 0 st).
  destruct (first_index
              (fun i => ready (requests_get w (i + gets st0) (health_url cfg))) 60)
    as [Hno | (j & Hj & H200 & Hbefore)].
  - rewrite (wait_for_minio_eval cfg w st _ None
               (loop_all_fail cfg w 60 0 st0 Hno (fun i _ => Hc _ _))).
    now do 2 eexists.
  - rewrite (wait_for_minio_eval cfg w st _ (Some true)
               (loop_first_ready cfg w j 60 0 st0 Hj H200 Hbefore
                                 (fun i _ => Hc _ _))).
    now do 2 eexists.
Qed.

(** [main], once its first two steps have returned. *)
Lemma main_eval (st st1 st2 : state) (b : bool) (catalog_name : string) :
  wait_for_minio cfg w
    (extend [EvLog (str_repeat "=" 60);
             EvLog "API Log Iceberg Integration Test - Initialization";
             EvLog (str_repeat "=" 60)] 0 st) = (Normal b, st1) ->
  setup_trino_catalog cfg w st1 = (Normal catalog_name, st2) ->
  main cfg w st =
  (Normal 0%Z,
   extend [EvCall "print_instructions";
           EvPrint (nl ++ str_repeat "=" 70);
           EvPrint "SETUP COMPLETE";
           EvPrint (str_repeat "=" 70);
           EvPrint (instructions cfg catalog_name);
           EvPrint (str_repeat "=" 70);
           EvLog (str_repeat "=" 60);
           EvLog "Initialization complete!";
           EvLog (str_repeat "=" 60)] 0 st2).
Proof.
  intros Hwait Hsetup. unfold main.
  unfold bind at 1 2 3. unfold log at 1 2 3, emit.
  unfold extend in Hwait. cbn [trace gets conn_open cursor_open Nat.add] in Hwait |- *.
  rewrite <- !app_assoc. cbn [app] in Hwait |- *.
  unfold bind at 1. rewrite Hwait.
  unfold bind at 1. rewrite Hsetup.
  unfold bind at 1. rewrite print_instructions_eval.
  unfold bind, log, emit, ret, extend. cbn [trace gets conn_open cursor_open].
  now rewrite <- !app_assoc.
Qed.

End Main.

(** C4, as the code has it.  When the trino module can be imported (the
    [import] stands before the [try] statement of the registrar) and every
    error raised by a GET or by a call of the trino client is an [Exception],
    [main] enters the readiness prober, the catalog registrar and the
    instruction printer in that order, and the process exits with status 0. *)
Theorem main_runs_three_steps_and_exits_0 :
  forall (cfg : config) (w : world),
    import_trino w = Normal tt ->
    get_raises_Exception w ->
    trino_raises_Exception w ->
    fst (run_script cfg w) = Exited 0 /\
    calls (trace (snd (run_script cfg w))) =
      ["wait_for_minio"; "setup_trino_catalog"; "print_instructions"].
Proof.
  intros cfg w Himp Hget Htrino. unfold run_script.
  set (st0 := extend [EvLog (str_repeat "=" 60);
                      EvLog "API Log Iceberg Integration Test - Initialization";
                      EvLog (str_repeat "=" 60)] 0 init_state).
  destruct (wait_for_minio_returns cfg w st0 Hget) as (b & st1 & Hwait).
  destruct (setup_trino_catalog_returns cfg w st1 Himp Htrino) as (st2 & Hsetup).
  rewrite (main_eval cfg w init_state st1 st2 b _ Hwait Hsetup).
  cbn [fst snd]. split; [reflexivity|].
  unfold extend; cbn [trace]. rewrite calls_app.
  rewrite (setup_trino_catalog_enters cfg w _ _ _ Hsetup).
  rewrite (wait_for_minio_enters cfg w _ _ _ Hwait).
  reflexivity.
Qed.

Lemma main_runs_three_steps_and_exits_0_witness :
  fst (run_script default_config world_catalog_exists) = Exited 0 /\
  calls (trace (snd (run_script default_config world_catalog_exists))) =
    ["wait_for_minio"; "setup_trino_catalog"; "print_instructions"].
Proof.
  apply (main_runs_three_steps_and_exits_0 default_config world_catalog_exists).
  - reflexivity.
  - intros n url. reflexivity.
  - repeat split; intros; reflexivity.
Defined.

(** C4, as it is written, fails where the trino module is not installed:
    the [ImportError] leaves [setup_trino_catalog] and [main], the
    instruction printer is never entered and the process does not exit with
    status 0. *)
Lemma main_stops_when_trino_is_missing :
  fst (run_script default_config world_no_trino_module) =
    Uncaught (mkExn ImportError "No module named 'trino'") /\
  fst (run_script default_config world_no_trino_module) <> Exited 0 /\
  calls (trace (snd (run_script default_config world_no_trino_module))) =
    ["wait_for_minio"; "setup_trino_catalog"].
Proof.
  split; [reflexivity|]. split; [|reflexivity].
  intros H. vm_compute in H. discriminate H.
Qed.

Example main_with_trino_down :
  fst (run_script default_config world_trino_down) = Exited 0 /\
  logged (trace (snd (setup_trino_catalog default_config world_trino_down
                                          init_state))) =
    ["Setting up Trino catalog...";
     "Warning: Could not create Trino catalog: Connection refused";
     "You may need to create the catalog manually"].
Proof. split; reflexivity. Qed.

(* ================================================================== *)
(** ** The printed instructions *)
(* ================================================================== *)

Section Lines.

Lemma unlines_cons (l : string) (ls : list string) :
  ls <> [] -> unlines (l :: ls) = l ++ nl ++ unlines ls.
Proof. destruct ls; [congruence | reflexivity]. Qed.

Lemma unlines_app (a b : list string) :
  a <> [] -> b <> [] -> unlines (a ++ b) = unlines a ++ nl ++ unlines b.
Proof.
  intros Ha Hb. induction a as [|x [|y a] IH]; [congruence | |].
  - cbn [app]. now apply unlines_cons.
  - change ((x :: y :: a) ++ b)%list with (x :: ((y :: a) ++ b))%list.
    rewrite unlines_cons by discriminate.
    rewrite IH by discriminate.
    rewrite (unlines_cons x (y :: a)) by discriminate.
    now rewrite !append_assoc_s.
Qed.

Lemma is_infix_empty (s : string) : is_infix "" s.
Proof. exists "", s. reflexivity. Qed.

Lemma unlines_infix_app_r (a b : list string) :
  is_infix (unlines b) (unlines (a ++ b)).
Proof.
  destruct a as [|x a]; [apply is_infix_refl|].
  destruct b as [|y b]; [apply is_infix_empty|].
  rewrite unlines_app by discriminate.
  apply is_infix_app_r, is_infix_app_r, is_infix_refl.
Qed.

Lemma unlines_infix_app_l (a b : list string) :
  is_infix (unlines a) (unlines (a ++ b)).
Proof.
  destruct b as [|y b]; [rewrite app_nil_r; apply is_infix_refl|].
  destruct a as [|x a]; [apply is_infix_empty|].
  rewrite unlines_app by discriminate.
  apply is_infix_app_l, is_infix_refl.
Qed.

Lemma unlines_In (l : string) (ls : list string) :
  In l ls -> is_infix l (unlines ls).
Proof.
  intros H. apply in_split in H. destruct H as (a & b & ->).
  apply (is_infix_trans _ (unlines (l :: b))).
  - change (l :: b) with ([l] ++ b)%list. apply (unlines_infix_app_l [l] b).
  - apply unlines_infix_app_r.
Qed.

End Lines.

(** Solves [In l ls] for a line [l] written out in the list [ls]. *)
Ltac in_lines := cbn [In]; repeat first [left; reflexivity | right].

Section Instructions.

Variable cfg : config.
Variable catalog_name : string.

Lemma example_queries_in_instructions :
  is_infix (example_queries cfg catalog_name) (instructions cfg catalog_name).
Proof.
  unfold example_queries, instructions, instructions_lines.
  do 3 (eapply is_infix_trans; [|apply unlines_infix_app_r]).
  apply unlines_infix_app_l.
Qed.

Lemma manual_ddl_in_instructions :
  is_infix (manual_ddl cfg catalog_name) (instructions cfg catalog_name).
Proof.
  unfold manual_ddl, instructions, instructions_lines.
  do 5 (eapply is_infix_trans; [|apply unlines_infix_app_r]).
  apply unlines_infix_app_l.
Qed.

Lemma log_location_in_instructions :
  is_infix ("Logs will be written to: " ++ WAREHOUSE_BUCKET cfg ++ "/"
            ++ NAMESPACE cfg ++ "/" ++ TABLE_NAME cfg)
           (instructions cfg catalog_name).
Proof.
  apply unlines_In. unfold instructions_lines.
  apply in_or_app. left. unfold intro_lines. in_lines.
Qed.

Lemma use_query_in_example_queries :
  is_infix ("  USE " ++ catalog_name ++ "." ++ NAMESPACE cfg ++ ";")
           (example_queries cfg catalog_name).
Proof. apply unlines_In. unfold step3_lines. in_lines. Qed.

Lemma count_query_in_example_queries :
  is_infix ("  SELECT COUNT(" ++ star ++ ") FROM " ++ TABLE_NAME cfg ++ ";")
           (example_queries cfg catalog_name).
Proof. apply unlines_In. unfold step3_lines. in_lines. Qed.

End Instructions.

(** C8, as the code has it.  For every configuration the printed block
    contains the bucket name, the namespace and the table name as they are
    configured (the line of the log location carries all three); the example
    queries are part of the block and carry the namespace and the table name
    as configured, and the catalog name derived from the bucket in place of
    the bucket name. *)
Theorem instructions_contain_configured_names :
  forall (cfg : config) (st : state),
    In (EvPrint (instructions cfg (catalog_name_of (WAREHOUSE_BUCKET cfg))))
       (trace (snd (print_instructions cfg
                      (catalog_name_of (WAREHOUSE_BUCKET cfg)) st))) /\
    is_infix (WAREHOUSE_BUCKET cfg)
             (instructions cfg (catalog_name_of (WAREHOUSE_BUCKET cfg))) /\
    is_infix (NAMESPACE cfg)
             (instructions cfg (catalog_name_of (WAREHOUSE_BUCKET cfg))) /\
    is_infix (TABLE_NAME cfg)
             (instructions cfg (catalog_name_of (WAREHOUSE_BUCKET cfg))) /\
    is_infix (example_queries cfg (catalog_name_of (WAREHOUSE_BUCKET cfg)))
             (instructions cfg (catalog_name_of (WAREHOUSE_BUCKET cfg))) /\
    is_infix ("USE " ++ catalog_name_of (WAREHOUSE_BUCKET cfg) ++ "."
              ++ NAMESPACE cfg ++ ";")
             (example_queries cfg (catalog_name_of (WAREHOUSE_BUCKET cfg))) /\
    is_infix ("SELECT COUNT(" ++ star ++ ") FROM " ++ TABLE_NAME cfg ++ ";")
             (example_queries cfg (catalog_name_of (WAREHOUSE_BUCKET cfg))).
Proof.
  intros cfg st. set (name := catalog_name_of (WAREHOUSE_BUCKET cfg)).
  pose proof (log_location_in_instructions cfg name) as Hloc.
  repeat split.
  - rewrite print_instructions_eval. unfold extend; cbn [snd trace].
    apply in_or_app. right. in_lines.
  - refine (is_infix_trans _ _ _ _ Hloc).
    exists "Logs will be written to: ",
           ("/" ++ NAMESPACE cfg ++ "/" ++ TABLE_NAME cfg). reflexivity.
  - refine (is_infix_trans _ _ _ _ Hloc).
    exists ("Logs will be written to: " ++ WAREHOUSE_BUCKET cfg ++ "/"),
           ("/" ++ TABLE_NAME cfg). now rewrite !append_assoc_s.
  - refine (is_infix_trans _ _ _ _ Hloc).
    exists ("Logs will be written to: " ++ WAREHOUSE_BUCKET cfg ++ "/"
            ++ NAMESPACE cfg ++ "/"), "".
    now rewrite !append_assoc_s, append_empty_r.
  - apply example_queries_in_instructions.
  - refine (is_infix_trans _ _ _ _ (use_query_in_example_queries cfg name)).
    exists "  ", "". now rewrite append_empty_r.
  - refine (is_infix_trans _ _ _ _ (count_query_in_example_queries cfg name)).
    exists "  ", "". now rewrite append_empty_r.
Qed.

(** C8, as it is written, fails for the default configuration: the bucket
    name [api-logs] does not occur in the example queries, which name the
    catalog [api_logs]. *)
Lemma example_queries_lack_bucket_name :
  WAREHOUSE_BUCKET default_config = "api-logs" /\
  ~ is_infix (WAREHOUSE_BUCKET default_config)
      (example_queries default_config
         (catalog_name_of (WAREHOUSE_BUCKET default_config))).
Proof.
  split; [reflexivity|].
  intros H. apply contains_spec in H. vm_compute in H. discriminate H.
Qed.

(* ================================================================== *)
(** ** The two CREATE CATALOG statements *)
(* ================================================================== *)

Section Layout.

Lemma squeeze_app (p : bool) (a b : string) :
  squeeze p (a ++ b) = squeeze p a ++ squeeze (pending_after p a) b.
Proof.
  revert p; induction a as [|c a IH]; intros p; [reflexivity|].
  cbn [append squeeze pending_after].
  destruct (is_space c).
  - apply IH.
  - rewrite IH. destruct p; reflexivity.
Qed.

Lemma executed_app (a b : list event) :
  executed (a ++ b) = (executed a ++ executed b)%list.
Proof.
  induction a as [|ev a IH]; simpl; [reflexivity|].
  destruct ev; simpl; rewrite IH; reflexivity.
Qed.

End Layout.

(** The statement the registrar sends first, once the connection and the
    cursor are there, is [create_catalog_sql]. *)
Lemma setup_trino_catalog_executes_ddl (cfg : config) (w : world) (st : state) :
  import_trino w = Normal tt ->
  dbapi_connect w (TRINO_HOST cfg) (TRINO_PORT cfg) "trino" = Normal tt ->
  conn_cursor w = Normal tt ->
  exists rest,
    executed (trace (snd (setup_trino_catalog cfg w st))) =
    (executed (trace st)
     ++ create_catalog_sql cfg (catalog_name_of (WAREHOUSE_BUCKET cfg)) :: rest)%list.
Proof.
  intros Himp H1 H2.
  rewrite setup_trino_catalog_eval by exact Himp.
  unfold try_except, setup_try, setup_except, connect, open_cursor, execute,
    fetchall, close_cursor, close_conn, extern, bind, emit, lift, modify, log,
    ret, extend.
  cbn [trace gets conn_open cursor_open set_conn set_cursor].
  rewrite H1, H2. cbn.
  repeat match goal with
         | |- context [match ?r with Normal _ => _ | Raised _ => _ end] =>
             destruct r; cbn
         | |- context [if ?b then _ else _] => destruct b; cbn
         end;
    rewrite <- ?app_assoc; cbn [app];
    rewrite executed_app; cbn; eexists; reflexivity.
Qed.

(** The manual fallback DDL and the statement of the registrar are the same
    once every run of whitespace is brought to one space, up to the semicolon
    that ends the printed one. *)
Lemma manual_ddl_layout_free (cfg : config) (name : string) :
  squeeze false (manual_ddl cfg name) =
  squeeze false (create_catalog_sql cfg name) ++ ";".
Proof.
  unfold manual_ddl, create_catalog_sql, manual_ddl_lines,
    create_catalog_sql_lines, unlines, q, dq, nl.
  rewrite !append_assoc_s.
  repeat (rewrite squeeze_app; simpl).
  repeat (rewrite append_assoc_s; simpl).
  reflexivity.
Qed.

(** The two texts differ in their layout. *)
Remark manual_ddl_layout_differs :
  manual_ddl default_config "api_logs" <> create_catalog_sql default_config "api_logs".
Proof. intros H. vm_compute in H. discriminate H. Qed.

(** [squeeze] keeps what is not whitespace: texts that differ in a character
    that is not whitespace have different layout-free forms. *)
Example squeeze_keeps_tokens :
  squeeze false "s3.region = 'us-east-1'" <> squeeze false "s3.region = 'us-east-2'"
  /\ squeeze false "a b" <> squeeze false "ab".
Proof. split; intros H; vm_compute in H; discriminate H. Qed.

(* ================================================================== *)
(** ** More on the readiness prober *)
(* ================================================================== *)

Section ProberOutcomes.

Variable cfg : config.
Variable w : world.

Let url : string := health_url cfg.

(** When the GET of round [j] raises what [except Exception] does not catch,
    the loop is left in that round. *)
Lemma loop_raises (j n a : nat) (st : state) (e : exn) :
  j < n ->
  requests_get w (j + gets st) url = Raised e ->
  is_Exception e = false ->
  (forall i, i < j -> ready (requests_get w (i + gets st) url) = false) ->
  (forall i, i < j -> caught (requests_get w (i + gets st) url) = true) ->
  for_each (seq a n) (round cfg w) st =
  (Raised e, extend (failed_rounds url j ++ [EvGet url 5]) (S j) st).
Proof.
  revert n a st; induction j as [|j IH]; intros n a st Hj Hget Hexc Hr Hc;
    (destruct n as [|n]; [lia|]); cbn [seq for_each]; unfold bind at 1.
  - rewrite round_eval. simpl in Hget. fold url. rewrite Hget, Hexc. reflexivity.
  - rewrite round_fails by (apply (Hr 0) || apply (Hc 0); lia).
    rewrite (IH n (S a)).
    + rewrite extend_extend. do 2 f_equal. lia.
    + lia.
    + simpl. replace (j + S (gets st)) with (S j + gets st) by lia. exact Hget.
    + exact Hexc.
    + intros i Hi. simpl. replace (i + S (gets st)) with (S i + gets st) by lia.
      apply Hr. lia.
    + intros i Hi. simpl. replace (i + S (gets st)) with (S i + gets st) by lia.
      apply Hc. lia.
Qed.

(** [wait_for_minio], when its loop is left by an exception. *)
Lemma wait_for_minio_eval_raised (st st' : state) (e : exn) :
  for_each (seq 0 60) (round cfg w)
           (extend [EvCall "wait_for_minio";
                    EvLog "Waiting for MinIO cluster to be ready..."] 0 st)
  = (Raised e, st') ->
  wait_for_minio cfg w st = (Raised e, st').
Proof.
  intros H. unfold wait_for_minio, bind, log, emit, ret.
  unfold extend in H; simpl in H |- *. rewrite <- app_assoc; simpl.
  now rewrite H.
Qed.

(** An exception leaves the loop only if [except Exception] does not catch
    it. *)
Lemma loop_raised_uncaught (xs : list nat) (st st' : state) (e : exn) :
  for_each xs (round cfg w) st = (Raised e, st') -> is_Exception e = false.
Proof.
  revert st; induction xs as [|x xs IH]; intros st; cbn [for_each].
  - discriminate.
  - unfold bind at 1. rewrite round_eval.
    destruct (requests_get w (gets st) (health_url cfg)) as [c|e0].
    + destruct (c =? 200)%Z; [discriminate | apply IH].
    + destruct (is_Exception e0) eqn:E; [apply IH|].
      intros H. injection H as <- _. exact E.
Qed.

Lemma wait_for_minio_raised_uncaught (st st' : state) (e : exn) :
  wait_for_minio cfg w st = (Raised e, st') -> is_Exception e = false.
Proof.
  unfold wait_for_minio, bind, log, emit, ret. cbv beta.
  match goal with
  | |- context [for_each ?xs ?body ?s] =>
      destruct (for_each xs body s) as [[[b|]|e0] st1] eqn:E
  end; try discriminate.
  intros H. injection H as <- _. exact (loop_raised_uncaught _ _ _ _ E).
Qed.

End ProberOutcomes.

(** X1.  When the GET of round [j] (counted from 0) is the first one
    answered by a 200, the prober returns [True] after exactly [j + 1] GETs
    and [2 * j] seconds of sleep; the last thing it does is to log that the
    cluster is ready. *)
Theorem wait_for_minio_stops_at_first_200 :
  forall (cfg : config) (w : world) (st : state) (j : nat),
    j < 60 ->
    requests_get w (j + gets st) (health_url cfg) = Normal 200%Z ->
    (forall i, i < j ->
       ready (requests_get w (i + gets st) (health_url cfg)) = false) ->
    (forall i, i < j ->
       caught (requests_get w (i + gets st) (health_url cfg)) = true) ->
    fst (wait_for_minio cfg w st) = Normal true /\
    trace (snd (wait_for_minio cfg w st)) =
      (trace st
       ++ [EvCall "wait_for_minio";
           EvLog "Waiting for MinIO cluster to be ready..."]
       ++ failed_rounds (health_url cfg) j
       ++ [EvGet (health_url cfg) 5; EvLog "MinIO cluster is ready"])%list /\
    count_gets (trace (snd (wait_for_minio cfg w st))) =
      count_gets (trace st) + (j + 1) /\
    seconds_slept (trace (snd (wait_for_minio cfg w st))) =
      (seconds_slept (trace st) + 2 * Z.of_nat j)%Z.
Proof.
  intros cfg w st j Hj H200 Hr Hc.
  set (st0 := extend [EvCall "wait_for_minio";
                      EvLog "Waiting for MinIO cluster to be ready..."] 0 st).
  assert (Hready : ready (requests_get w (j + gets st0) (health_url cfg)) = true)
    by (simpl; now rewrite H200).
  rewrite (wait_for_minio_eval cfg w st _ (Some true)
             (loop_first_ready cfg w j 60 0 st0 Hj Hready Hr Hc)).
  cbn [fst snd]. unfold st0, extend. cbn [trace].
  rewrite <- !app_assoc. cbn [app].
  split; [reflexivity|]. split; [reflexivity|].
  rewrite !count_gets_app, !seconds_slept_app.
  change (EvCall "wait_for_minio"
            :: EvLog "Waiting for MinIO cluster to be ready..."
            :: (failed_rounds (health_url cfg) j
                ++ [EvGet (health_url cfg) 5; EvLog "MinIO cluster is ready"]))%list
    with ([EvCall "wait_for_minio";
           EvLog "Waiting for MinIO cluster to be ready..."]
          ++ (failed_rounds (health_url cfg) j
              ++ [EvGet (health_url cfg) 5; EvLog "MinIO cluster is ready"]))%list.
  rewrite !count_gets_app, !seconds_slept_app.
  rewrite count_gets_failed_rounds, seconds_slept_failed_rounds.
  cbn [count_gets seconds_slept]. split; lia.
Qed.

Lemma wait_for_minio_stops_at_first_200_witness :
  fst (wait_for_minio default_config world_ready_fifth init_state) = Normal true /\
  trace (snd (wait_for_minio default_config world_ready_fifth init_state)) =
    (trace init_state
     ++ [EvCall "wait_for_minio";
         EvLog "Waiting for MinIO cluster to be ready..."]
     ++ failed_rounds (health_url default_config) 4
     ++ [EvGet (health_url default_config) 5; EvLog "MinIO cluster is ready"])%list /\
  count_gets (trace (snd (wait_for_minio default_config world_ready_fifth init_state))) =
    count_gets (trace init_state) + (4 + 1) /\
  seconds_slept (trace (snd (wait_for_minio default_config world_ready_fifth init_state))) =
    (seconds_slept (trace init_state) + 2 * Z.of_nat 4)%Z.
Proof.
  apply (wait_for_minio_stops_at_first_200 default_config world_ready_fifth
           init_state 4).
  - lia.
  - reflexivity.
  - intros i Hi. simpl. replace (i + 0) with i by lia.
    destruct (Nat.ltb_spec i 4); [reflexivity | lia].
  - intros i Hi. simpl. now destruct (_ <? _)%nat.
Defined.

(** X2.  The prober tells a 200 from everything else and nothing more: two
    worlds whose GETs are answered by a 200 in the same rounds, and whose
    errors are all caught, give the same result and the same trace, whether a
    failed round is a 503, a 404, a refused connection or a timeout. *)
Theorem wait_for_minio_sees_only_readiness :
  forall (cfg : config) (w1 w2 : world) (st : state),
    (forall i, i < 60 ->
       ready (requests_get w1 (i + gets st) (health_url cfg)) =
       ready (requests_get w2 (i + gets st) (health_url cfg))) ->
    (forall i, i < 60 ->
       caught (requests_get w1 (i + gets st) (health_url cfg)) = true) ->
    (forall i, i < 60 ->
       caught (requests_get w2 (i + gets st) (health_url cfg)) = true) ->
    wait_for_minio cfg w1 st = wait_for_minio cfg w2 st.
Proof.
  intros cfg w1 w2 st Hsame Hc1 Hc2.
  set (st0 := extend [EvCall "wait_for_minio";
                      EvLog "Waiting for MinIO cluster to be ready..."] 0 st).
  destruct (first_index
              (fun i => ready (requests_get w1 (i + gets st) (health_url cfg))) 60)
    as [Hno | (j & Hj & H200 & Hbefore)].
  - assert (Hno2 : forall i, i < 60 ->
               ready (requests_get w2 (i + gets st0) (health_url cfg)) = false)
      by (intros i Hi; simpl; rewrite <- Hsame by exact Hi; now apply Hno).
    rewrite (wait_for_minio_eval cfg w1 st _ None
               (loop_all_fail cfg w1 60 0 st0 Hno Hc1)).
    rewrite (wait_for_minio_eval cfg w2 st _ None
               (loop_all_fail cfg w2 60 0 st0 Hno2 Hc2)).
    reflexivity.
  - assert (H200' : ready (requests_get w2 (j + gets st0) (health_url cfg)) = true)
      by (simpl; rewrite <- Hsame by exact Hj; exact H200).
    assert (Hbefore' : forall i, i < j ->
               ready (requests_get w2 (i + gets st0) (health_url cfg)) = false)
      by (intros i Hi; simpl; rewrite <- Hsame by lia; now apply Hbefore).
    rewrite (wait_for_minio_eval cfg w1 st _ (Some true)
               (loop_first_ready cfg w1 j 60 0 st0 Hj H200 Hbefore
                                 (fun i Hi => Hc1 i (Nat.lt_trans _ _ _ Hi Hj)))).
    rewrite (wait_for_minio_eval cfg w2 st _ (Some true)
               (loop_first_ready cfg w2 j 60 0 st0 Hj H200' Hbefore'
                                 (fun i Hi => Hc2 i (Nat.lt_trans _ _ _ Hi Hj)))).
    reflexivity.
Qed.

Lemma wait_for_minio_sees_only_readiness_witness :
  wait_for_minio default_config world_ready_fifth init_state =
  wait_for_minio default_config world_ready_fifth_mixed init_state.
Proof.
  apply (wait_for_minio_sees_only_readiness default_config world_ready_fifth
           world_ready_fifth_mixed init_state).
  - intros i _. simpl. replace (i + 0) with i by lia.
    destruct i as [|[|[|[|i]]]]; reflexivity.
  - intros i _. simpl. now destruct (_ <? _)%nat.
  - intros i _. simpl. replace (i + 0) with i by lia.
    destruct i as [|[|[|[|i]]]]; reflexivity.
Defined.

(** X3.  What [except Exception] does not catch is not swallowed: when the
    GET of round [j] raises such an exception and no earlier GET was answered
    by a 200, the exception leaves the prober after [j + 1] GETs, and neither
    the success line nor the warning is logged. *)
Theorem wait_for_minio_propagates_uncaught :
  forall (cfg : config) (w : world) (st : state) (j : nat) (e : exn),
    j < 60 ->
    requests_get w (j + gets st) (health_url cfg) = Raised e ->
    is_Exception e = false ->
    (forall i, i < j ->
       ready (requests_get w (i + gets st) (health_url cfg)) = false) ->
    (forall i, i < j ->
       caught (requests_get w (i + gets st) (health_url cfg)) = true) ->
    fst (wait_for_minio cfg w st) = Raised e /\
    trace (snd (wait_for_minio cfg w st)) =
      (trace st
       ++ [EvCall "wait_for_minio";
           EvLog "Waiting for MinIO cluster to be ready..."]
       ++ failed_rounds (health_url cfg) j
       ++ [EvGet (health_url cfg) 5])%list.
Proof.
  intros cfg w st j e Hj Hget Hexc Hr Hc.
  set (st0 := extend [EvCall "wait_for_minio";
                      EvLog "Waiting for MinIO cluster to be ready..."] 0 st).
  rewrite (wait_for_minio_eval_raised cfg w st _ e
             (loop_raises cfg w j 60 0 st0 e Hj Hget Hexc Hr Hc)).
  cbn [fst snd]. unfold st0, extend. cbn [trace].
  rewrite <- !app_assoc. split; reflexivity.
Qed.

Lemma wait_for_minio_propagates_uncaught_witness :
  fst (wait_for_minio default_config world_interrupted_third init_state) =
    Raised (mkExn KeyboardInterrupt "") /\
  trace (snd (wait_for_minio default_config world_interrupted_third init_state)) =
    (trace init_state
     ++ [EvCall "wait_for_minio";
         EvLog "Waiting for MinIO cluster to be ready..."]
     ++ failed_rounds (health_url default_config) 2
     ++ [EvGet (health_url default_config) 5])%list.
Proof.
  apply (wait_for_minio_propagates_uncaught default_config
           world_interrupted_third init_state 2).
  - lia.
  - reflexivity.
  - reflexivity.
  - intros i Hi. simpl. replace (i + 0) with i by lia.
    destruct (Nat.ltb_spec i 2); [reflexivity | lia].
  - intros i Hi. simpl. replace (i + 0) with i by lia.
    destruct (Nat.ltb_spec i 2); [reflexivity | lia].
Defined.

(* ================================================================== *)
(** ** What a run may cost and what it may do *)
(* ================================================================== *)

Section Within.

Lemma within_ret {A} (a : A) : within (ret a) 0 0.
Proof. intros st r st' [= <- <-]. split; lia. Qed.

Lemma within_lift {A} (x : result A) : within (lift x) 0 0.
Proof. intros st r st' [= <- <-]. split; lia. Qed.

Lemma within_modify (f : state -> state) :
  (forall st, trace (f st) = trace st) -> within (modify f) 0 0.
Proof. intros Hf st r st' [= <- <-]. rewrite Hf. split; lia. Qed.

Lemma within_emit (ev : event) :
  within (emit ev) (count_gets [ev]) (seconds_slept [ev]).
Proof.
  intros st r st' [= <- <-]. cbn [trace].
  rewrite count_gets_app, seconds_slept_app. split; lia.
Qed.

Lemma within_weaken {A} (m : M A) (g g' : nat) (s s' : Z) :
  within m g s -> g <= g' -> (s <= s')%Z -> within m g' s'.
Proof.
  intros Hm Hg Hs st r st' H. destruct (Hm _ _ _ H). split; lia.
Qed.

Lemma within_bind {A B} (m : M A) (k : A -> M B) (g1 g2 : nat) (s1 s2 : Z) :
  within m g1 s1 -> (forall a, within (k a) g2 s2) -> (0 <= s2)%Z ->
  within (bind m k) (g1 + g2) (s1 + s2).
Proof.
  intros Hm Hk Hs st r st'. unfold bind.
  destruct (m st) as [[a|e] st1] eqn:E; intros H.
  - destruct (Hm _ _ _ E), (Hk a _ _ _ H). split; lia.
  - injection H as <- <-. destruct (Hm _ _ _ E). split; lia.
Qed.

Lemma within_try_except {A} (body : M A) (handler : exn -> M A)
      (g1 g2 : nat) (s1 s2 : Z) :
  within body g1 s1 -> (forall e, within (handler e) g2 s2) -> (0 <= s2)%Z ->
  within (try_except body handler) (g1 + g2) (s1 + s2).
Proof.
  intros Hb Hh Hs st r st'. unfold try_except.
  destruct (body st) as [[a|e] st1] eqn:E.
  - intros [= <- <-]. destruct (Hb _ _ _ E). split; lia.
  - destruct (is_Exception e); intros H.
    + destruct (Hb _ _ _ E), (Hh e _ _ _ H). split; lia.
    + injection H as <- <-. destruct (Hb _ _ _ E). split; lia.
Qed.

Lemma within_for_each {A B} (xs : list A) (body : A -> M (option B))
      (g : nat) (s : Z) :
  (forall x, within (body x) g s) -> (0 <= s)%Z ->
  within (for_each xs body) (length xs * g) (Z.of_nat (length xs) * s).
Proof.
  intros Hb Hs. induction xs as [|x xs IH]; cbn [for_each].
  - apply within_ret.
  - eapply within_weaken.
    + apply (within_bind _ _ g (length xs * g) s (Z.of_nat (length xs) * s)).
      * apply Hb.
      * intros [b|]; [|exact IH].
        eapply within_weaken; [apply within_ret | lia | nia].
      * nia.
    + cbn [length]. lia.
    + cbn [length]. nia.
Qed.

Lemma emits_only_ret {A} (ok : event -> bool) (a : A) : emits_only (ret a) ok.
Proof. intros st r st' [= <- <-]. exists []. now rewrite app_nil_r. Qed.

Lemma emits_only_lift {A} (ok : event -> bool) (x : result A) :
  emits_only (lift x) ok.
Proof. intros st r st' [= <- <-]. exists []. now rewrite app_nil_r. Qed.

Lemma emits_only_modify (ok : event -> bool) (f : state -> state) :
  (forall st, trace (f st) = trace st) -> emits_only (modify f) ok.
Proof. intros Hf st r st' [= <- <-]. exists []. now rewrite Hf, app_nil_r. Qed.

Lemma emits_only_emit (ok : event -> bool) (ev : event) :
  ok ev = true -> emits_only (emit ev) ok.
Proof.
  intros Hok st r st' [= <- <-]. exists [ev]. cbn. now rewrite Hok.
Qed.

Lemma emits_only_bind {A B} (ok : event -> bool) (m : M A) (k : A -> M B) :
  emits_only m ok -> (forall a, emits_only (k a) ok) -> emits_only (bind m k) ok.
Proof.
  intros Hm Hk st r st'. unfold bind.
  destruct (m st) as [[a|e] st1] eqn:E; intros H.
  - destruct (Hm _ _ _ E) as (e1 & T1 & H1), (Hk a _ _ _ H) as (e2 & T2 & H2).
    exists (e1 ++ e2)%list. rewrite T2, T1, <- app_assoc, forallb_app, H1, H2. auto.
  - injection H as <- <-. exact (Hm _ _ _ E).
Qed.

Lemma emits_only_try_except {A} (ok : event -> bool) (body : M A)
      (handler : exn -> M A) :
  emits_only body ok -> (forall e, emits_only (handler e) ok) ->
  emits_only (try_except body handler) ok.
Proof.
  intros Hb Hh st r st'. unfold try_except.
  destruct (body st) as [[a|e] st1] eqn:E.
  - intros [= <- <-]. exact (Hb _ _ _ E).
  - destruct (is_Exception e); intros H.
    + destruct (Hb _ _ _ E) as (e1 & T1 & H1), (Hh e _ _ _ H) as (e2 & T2 & H2).
      exists (e1 ++ e2)%list. rewrite T2, T1, <- app_assoc, forallb_app, H1, H2. auto.
    + injection H as <- <-. exact (Hb _ _ _ E).
Qed.

Lemma emits_only_for_each {A B} (ok : event -> bool) (xs : list A)
      (body : A -> M (option B)) :
  (forall x, emits_only (body x) ok) -> emits_only (for_each xs body) ok.
Proof.
  intros Hb. induction xs as [|x xs IH]; cbn [for_each].
  - apply emits_only_ret.
  - apply emits_only_bind; [apply Hb|].
    intros [b|]; [apply emits_only_ret | exact IH].
Qed.

End Within.

(** Solves [within m 0 0] for code that neither GETs nor sleeps. *)
Ltac within_zero :=
  repeat first
    [ apply within_ret
    | apply within_lift
    | apply (within_emit (EvLog _))
    | apply (within_emit (EvPrint _))
    | apply (within_emit (EvCall _))
    | apply (within_emit (EvImport _))
    | apply (within_emit (EvConnect _ _ _))
    | apply (within_emit EvCursor)
    | apply (within_emit (EvExecute _))
    | apply (within_emit EvFetchall)
    | apply (within_emit EvCursorClose)
    | apply (within_emit EvConnClose)
    | apply within_modify; reflexivity
    | apply (within_try_except _ _ 0 0 0 0); [|intros ?|lia]
    | apply (within_bind _ _ 0 0 0 0); [|intros ?|lia]
    | match goal with
      | |- within (match ?x with _ => _ end) _ _ => destruct x
      | |- within (if ?x then _ else _) _ _ => destruct x
      end ].

(** Solves [emits_only m ok] for the straight-line code of the script. *)
Ltac emits_tac :=
  repeat first
    [ apply emits_only_ret
    | apply emits_only_lift
    | apply emits_only_modify; reflexivity
    | apply emits_only_emit;
      cbn; rewrite ?String.eqb_refl, ?Z.eqb_refl, ?orb_true_r; reflexivity
    | apply emits_only_for_each; intros ?
    | apply emits_only_try_except; [|intros ?]
    | apply emits_only_bind; [|intros ?]
    | match goal with
      | |- emits_only (match ?x with _ => _ end) _ => destruct x
      | |- emits_only (if ?x then _ else _) _ => destruct x
      end ].

Section Budget.

Variable cfg : config.
Variable w : world.

Lemma within_http_get (url : string) (timeout : Z) :
  within (http_get w url timeout) 1 0.
Proof.
  intros st r st' [= <- <-]. cbn [trace].
  rewrite count_gets_app, seconds_slept_app. cbn. split; lia.
Qed.

Lemma emits_only_http_get (ok : event -> bool) (url : string) (timeout : Z) :
  ok (EvGet url timeout) = true -> emits_only (http_get w url timeout) ok.
Proof.
  intros Hok st r st' [= <- <-]. exists [EvGet url timeout]. cbn.
  now rewrite Hok.
Qed.

Lemma within_probe : within (probe cfg w) 1 0.
Proof.
  unfold probe, log.
  apply (within_try_except _ _ 1 0 0 0); [|intros e; apply within_ret|lia].
  apply (within_bind _ _ 1 0 0 0); [apply within_http_get| |lia].
  intros c. destruct (c =? 200)%Z; within_zero.
Qed.

Lemma within_round (i : nat) : within (round cfg w i) 1 2.
Proof.
  unfold round, sleep.
  apply (within_bind _ _ 1 0 0 2); [apply within_probe| |lia].
  intros [b|].
  - eapply within_weaken; [apply within_ret | lia | lia].
  - apply (within_bind _ _ 0 0 2 0); [apply (within_emit (EvSleep 2))| |lia].
    intros _. apply within_ret.
Qed.

Lemma within_wait_for_minio : within (wait_for_minio cfg w) 60 120.
Proof.
  unfold wait_for_minio, log.
  apply (within_bind _ _ 0 60 0 120); [apply (within_emit (EvCall _))| |lia].
  intros _.
  apply (within_bind _ _ 0 60 0 120); [apply (within_emit (EvLog _))| |lia].
  intros _.
  apply (within_bind _ _ 60 0 120 0); [| |lia].
  - apply (within_for_each (seq 0 60) (round cfg w) 1 2); [|lia].
    apply within_round.
  - intros [b|]; within_zero.
Qed.

Lemma within_setup_trino_catalog : within (setup_trino_catalog cfg w) 0 0.
Proof.
  unfold setup_trino_catalog, setup_try, setup_except, connect, open_cursor,
    execute, fetchall, close_cursor, close_conn, extern, log.
  within_zero.
Qed.

Lemma within_print_instructions (catalog_name : string) :
  within (print_instructions cfg catalog_name) 0 0.
Proof. unfold print_instructions, print. within_zero. Qed.

Lemma within_main : within (main cfg w) 60 120.
Proof.
  unfold main, log.
  do 3 (apply (within_bind _ _ 0 60 0 120);
        [apply (within_emit (EvLog _))|intros _|lia]).
  apply (within_bind _ _ 60 0 120 0); [apply within_wait_for_minio| |lia].
  intros _.
  apply (within_bind _ _ 0 0 0 0); [apply within_setup_trino_catalog| |lia].
  intros catalog_name.
  apply (within_bind _ _ 0 0 0 0); [apply within_print_instructions| |lia].
  intros _. within_zero.
Qed.

Lemma emits_only_wait_for_minio :
  emits_only (wait_for_minio cfg w) (prober_event cfg).
Proof.
  unfold wait_for_minio, round, probe, log, sleep.
  repeat first
    [ apply emits_only_http_get;
      cbn; rewrite String.eqb_refl; reflexivity
    | progress emits_tac ].
Qed.

Lemma emits_only_setup_trino_catalog :
  emits_only (setup_trino_catalog cfg w) (registrar_event cfg).
Proof.
  unfold setup_trino_catalog, setup_try, setup_except, connect, open_cursor,
    execute, fetchall, close_cursor, close_conn, extern, log.
  emits_tac.
Qed.

(** Every round of the loop starts with a GET. *)
Lemma wait_for_minio_first_get (st : state) :
  exists evs,
    trace (snd (wait_for_minio cfg w st)) =
    (trace st
     ++ [EvCall "wait_for_minio";
         EvLog "Waiting for MinIO cluster to be ready...";
         EvGet (health_url cfg) 5] ++ evs)%list.
Proof.
  assert (Hloop : emits_only (for_each (seq 1 59) (round cfg w)) (fun _ => true)).
  { apply emits_only_for_each. intros i. unfold round, probe, log, sleep.
    repeat first [ apply emits_only_http_get; reflexivity | progress emits_tac ]. }
  unfold wait_for_minio, bind at 1 2 3, log, emit.
  change (seq 0 60) with (0 :: seq 1 59). cbn [for_each].
  unfold bind at 1. rewrite round_eval. cbn [gets trace conn_open cursor_open].
  destruct (requests_get w (gets st) (health_url cfg)) as [c|e].
  - destruct (c =? 200)%Z.
    + cbn. eexists. rewrite <- !app_assoc. reflexivity.
    + destruct (for_each (seq 1 59) (round cfg w) _) as [[[b|]|e] st1] eqn:E;
        destruct (Hloop _ _ _ E) as (evs & Ht & _); cbn; rewrite ?Ht; cbn;
        eexists; rewrite <- !app_assoc; cbn; reflexivity.
  - destruct (is_Exception e).
    + destruct (for_each (seq 1 59) (round cfg w) _) as [[[b|]|e1] st1] eqn:E;
        destruct (Hloop _ _ _ E) as (evs & Ht & _); cbn; rewrite ?Ht; cbn;
        eexists; rewrite <- !app_assoc; cbn; reflexivity.
    + cbn. eexists. rewrite <- !app_assoc. cbn. reflexivity.
Qed.

End Budget.

Lemma prober_events_sleep_nonneg (cfg : config) (evs : list event) :
  forallb (prober_event cfg) evs = true -> (0 <= seconds_slept evs)%Z.
Proof.
  induction evs as [|ev evs IH]; cbn [forallb seconds_slept]; [lia|].
  intros H. apply andb_true_iff in H. destruct H as (Hev & Hrest).
  specialize (IH Hrest). destruct ev; try exact IH.
  cbn in Hev. apply Z.eqb_eq in Hev. lia.
Qed.

Lemma count_gets_nonneg_app (a b : list event) :
  count_gets a <= count_gets (a ++ b).
Proof. rewrite count_gets_app. lia. Qed.

(** X4.  Whatever the health endpoint answers, the prober issues at least
    one and at most 60 GETs and sleeps between 0 and 120 seconds. *)
Theorem wait_for_minio_bounded :
  forall (cfg : config) (w : world) (st : state),
    count_gets (trace st) + 1 <=
      count_gets (trace (snd (wait_for_minio cfg w st))) /\
    count_gets (trace (snd (wait_for_minio cfg w st))) <=
      count_gets (trace st) + 60 /\
    (seconds_slept (trace st) <=
       seconds_slept (trace (snd (wait_for_minio cfg w st))))%Z /\
    (seconds_slept (trace (snd (wait_for_minio cfg w st))) <=
       seconds_slept (trace st) + 120)%Z.
Proof.
  intros cfg w st.
  destruct (wait_for_minio cfg w st) as [r st'] eqn:E.
  destruct (within_wait_for_minio cfg w _ _ _ E) as (Hg & Hs).
  destruct (emits_only_wait_for_minio cfg w _ _ _ E) as (evs & Ht & Hev).
  destruct (wait_for_minio_first_get cfg w st) as (evs' & Ht').
  rewrite E in Ht'. cbn [snd] in *.
  repeat split; try assumption.
  - rewrite Ht', !count_gets_app. cbn. lia.
  - rewrite Ht, seconds_slept_app.
    pose proof (prober_events_sleep_nonneg cfg evs Hev). lia.
Qed.

(** X5.  Whatever the health endpoint answers, the prober does nothing but
    log, sleep 2 seconds and GET the health URL of the configured endpoint
    with a timeout of 5 seconds: no other URL, no call of the trino client,
    no output with [print]. *)
Theorem wait_for_minio_only_probes :
  forall (cfg : config) (w : world) (st : state),
    exists evs,
      trace (snd (wait_for_minio cfg w st)) = (trace st ++ evs)%list /\
      forallb (prober_event cfg) evs = true.
Proof.
  intros cfg w st.
  destruct (wait_for_minio cfg w st) as [r st'] eqn:E.
  exact (emits_only_wait_for_minio cfg w _ _ _ E).
Qed.

(** X6.  Whatever the trino client answers, the registrar does nothing but
    import trino, log, connect to the configured host and port as user
    [trino], use one cursor and execute its own two statements: no GET, no
    sleep, no retry loop, no other SQL. *)
Theorem setup_trino_catalog_only_registers :
  forall (cfg : config) (w : world) (st : state),
    exists evs,
      trace (snd (setup_trino_catalog cfg w st)) = (trace st ++ evs)%list /\
      forallb (registrar_event cfg) evs = true.
Proof.
  intros cfg w st.
  destruct (setup_trino_catalog cfg w st) as [r st'] eqn:E.
  exact (emits_only_setup_trino_catalog cfg w _ _ _ E).
Qed.

(** X7.  Whatever the outside world answers, a whole run of the script
    issues at most 60 GETs and sleeps at most 120 seconds. *)
Theorem run_script_bounded :
  forall (cfg : config) (w : world),
    count_gets (trace (snd (run_script cfg w))) <= 60 /\
    (seconds_slept (trace (snd (run_script cfg w))) <= 120)%Z.
Proof.
  intros cfg w. unfold run_script.
  destruct (main cfg w init_state) as [[status|e] st'] eqn:E;
    destruct (within_main cfg w _ _ _ E) as (Hg & Hs); cbn in *; split; lia.
Qed.

(* ================================================================== *)
(** ** More on the catalog registrar *)
(* ================================================================== *)

Lemma logged_app (a b : list event) :
  logged (a ++ b) = (logged a ++ logged b)%list.
Proof.
  induction a as [|ev a IH]; simpl; [reflexivity|].
  destruct ev; simpl; rewrite IH; reflexivity.
Qed.

(** Unfolds the registrar down to the calls of the trino client. *)
Ltac unfold_registrar :=
  unfold setup_try, connect, open_cursor, execute,
    fetchall, close_cursor, close_conn, log, extern, bind, emit, lift, modify,
    ret, extend, set_conn, set_cursor;
  cbn [trace gets conn_open cursor_open].

(** Splits the goal on the outcome of every call that is still undecided. *)
Ltac split_outcomes :=
  repeat match goal with
         | |- context [match ?r with Normal _ => _ | Raised _ => _ end] =>
             tryif is_var r then fail
             else (destruct r as [[]|?] || destruct r);
             cbn [trace gets conn_open cursor_open]
         end.

(** Names the outcome [(r1, st1)] of the body of the [try] statement and
    brings its computation, unfolded, in front of the goal. *)
Ltac run_try_body r1 st1 :=
  unfold try_except;
  match goal with
  | |- context [setup_try ?c ?w ?n ?s] =>
      let E := fresh "Ebody" in
      destruct (setup_try c w n s) as [r1 st1] eqn:E; revert E
  end;
  unfold_registrar.

(** X8.  When every call of the trino client returns and the schema names
    fetched are ASCII text, the registrar sends exactly its two statements,
    the DDL and then [SHOW SCHEMAS], logs the first column of every row it
    fetched as Python writes a list of strings, and returns with the cursor
    and the connection closed. *)
Theorem setup_trino_catalog_success_path :
  forall (cfg : config) (w : world) (st : state)
         (rows : list (list string)) (cols : list string),
    import_trino w = Normal tt ->
    dbapi_connect w (TRINO_HOST cfg) (TRINO_PORT cfg) "trino" = Normal tt ->
    conn_cursor w = Normal tt ->
    cursor_execute w (create_catalog_sql cfg (catalog_name_of (WAREHOUSE_BUCKET cfg)))
      = Normal tt ->
    cursor_execute w ("SHOW SCHEMAS FROM " ++ catalog_name_of (WAREHOUSE_BUCKET cfg))
      = Normal tt ->
    cursor_fetchall w = Normal rows ->
    first_columns rows = Normal cols ->
    forallb ascii_only cols = true ->
    cursor_close w = Normal tt ->
    conn_close w = Normal tt ->
    fst (setup_trino_catalog cfg w st) =
      Normal (catalog_name_of (WAREHOUSE_BUCKET cfg)) /\
    executed (trace (snd (setup_trino_catalog cfg w st))) =
      app (executed (trace st))
        ([create_catalog_sql cfg (catalog_name_of (WAREHOUSE_BUCKET cfg));
           "SHOW SCHEMAS FROM " ++ catalog_name_of (WAREHOUSE_BUCKET cfg)]) /\
    logged (trace (snd (setup_trino_catalog cfg w st))) =
      app (logged (trace st))
        (["Setting up Trino catalog...";
           "Creating Trino catalog: " ++ catalog_name_of (WAREHOUSE_BUCKET cfg);
           "Trino catalog '" ++ catalog_name_of (WAREHOUSE_BUCKET cfg)
             ++ "' created successfully";
           "Available schemas in " ++ catalog_name_of (WAREHOUSE_BUCKET cfg)
             ++ ": " ++ repr_list cols]) /\
    conn_open (snd (setup_trino_catalog cfg w st)) = false /\
    cursor_open (snd (setup_trino_catalog cfg w st)) = false.
Proof.
  intros cfg w st rows cols Himp H1 H2 H3 H4 H5 H6 Hascii H7 H8.
  rewrite setup_trino_catalog_eval by exact Himp.
  run_try_body r1 st1.
  rewrite H1, H2, H3, H4, H5, H6, H7, H8. intros [= <- <-].
  cbn [fst snd trace conn_open cursor_open].
  rewrite <- !app_assoc. cbn [app].
  rewrite executed_app, logged_app. repeat split; reflexivity.
Qed.

Lemma setup_trino_catalog_success_path_witness :
  fst (setup_trino_catalog default_config world_503 init_state) = Normal "api_logs" /\
  executed (trace (snd (setup_trino_catalog default_config world_503 init_state))) =
    [create_catalog_sql default_config "api_logs"; "SHOW SCHEMAS FROM api_logs"] /\
  logged (trace (snd (setup_trino_catalog default_config world_503 init_state))) =
    ["Setting up Trino catalog..."; "Creating Trino catalog: api_logs";
     "Trino catalog 'api_logs' created successfully";
     "Available schemas in api_logs: ['information_schema', 'minio']"] /\
  conn_open (snd (setup_trino_catalog default_config world_503 init_state)) = false /\
  cursor_open (snd (setup_trino_catalog default_config world_503 init_state)) = false.
Proof.
  exact (setup_trino_catalog_success_path default_config world_503 init_state
           [["information_schema"]; ["minio"]] ["information_schema"; "minio"]
           eq_refl eq_refl eq_refl eq_refl eq_refl eq_refl eq_refl eq_refl eq_refl
           eq_refl).
Defined.

(** X9.  When [trino.dbapi.connect] raises an [Exception], the registrar
    opens no cursor, sends no statement and closes nothing: after the attempt
    to connect it only logs, leaves the connection and the cursor as they
    were, and returns the catalog name. *)
Theorem setup_trino_catalog_connect_fails :
  forall (cfg : config) (w : world) (st : state) (e : exn),
    import_trino w = Normal tt ->
    dbapi_connect w (TRINO_HOST cfg) (TRINO_PORT cfg) "trino" = Raised e ->
    is_Exception e = true ->
    fst (setup_trino_catalog cfg w st) =
      Normal (catalog_name_of (WAREHOUSE_BUCKET cfg)) /\
    trace (snd (setup_trino_catalog cfg w st)) =
      app (trace st)
        (app [EvCall "setup_trino_catalog"; EvImport "trino";
              EvLog "Setting up Trino catalog...";
              EvConnect (TRINO_HOST cfg) (TRINO_PORT cfg) "trino"]
             (if says_already_exists e
              then [EvLog ("Trino catalog '"
                           ++ catalog_name_of (WAREHOUSE_BUCKET cfg)
                           ++ "' already exists")]
              else [EvLog ("Warning: Could not create Trino catalog: "
                           ++ exn_msg e);
                    EvLog "You may need to create the catalog manually"])) /\
    executed (trace (snd (setup_trino_catalog cfg w st))) = executed (trace st) /\
    conn_open (snd (setup_trino_catalog cfg w st)) = conn_open st /\
    cursor_open (snd (setup_trino_catalog cfg w st)) = cursor_open st.
Proof.
  intros cfg w st e Himp Hconn Hexc.
  rewrite setup_trino_catalog_eval by exact Himp.
  run_try_body r1 st1.
  rewrite Hconn. intros [= <- <-]. rewrite Hexc, setup_except_eval.
  unfold extend. cbn [fst snd trace conn_open cursor_open].
  rewrite <- !app_assoc. cbn [app].
  rewrite executed_app.
  assert (Hnone : executed
            (EvCall "setup_trino_catalog" :: EvImport "trino"
               :: EvLog "Setting up Trino catalog..."
               :: EvConnect (TRINO_HOST cfg) (TRINO_PORT cfg) "trino"
               :: (if says_already_exists e
                   then [EvLog ("Trino catalog '"
                                ++ catalog_name_of (WAREHOUSE_BUCKET cfg)
                                ++ "' already exists")]
                   else [EvLog ("Warning: Could not create Trino catalog: "
                                ++ exn_msg e);
                         EvLog "You may need to create the catalog manually"]))
            = []) by (now destruct (says_already_exists e)).
  rewrite Hnone, app_nil_r. repeat split; reflexivity.
Qed.

Lemma setup_trino_catalog_connect_fails_witness :
  fst (setup_trino_catalog default_config world_trino_down init_state) =
    Normal "api_logs" /\
  trace (snd (setup_trino_catalog default_config world_trino_down init_state)) =
    [EvCall "setup_trino_catalog"; EvImport "trino";
     EvLog "Setting up Trino catalog..."; EvConnect "trino" 8080 "trino";
     EvLog "Warning: Could not create Trino catalog: Connection refused";
     EvLog "You may need to create the catalog manually"] /\
  executed (trace (snd (setup_trino_catalog default_config world_trino_down
                                            init_state))) = [] /\
  conn_open (snd (setup_trino_catalog default_config world_trino_down init_state))
    = false /\
  cursor_open (snd (setup_trino_catalog default_config world_trino_down init_state))
    = false.
Proof.
  exact (setup_trino_catalog_connect_fails default_config world_trino_down
           init_state _ eq_refl eq_refl eq_refl).
Defined.

(** X10.  Whatever the trino client answers, the statements the registrar
    sends are nothing, the DDL alone, or the DDL followed by [SHOW SCHEMAS]:
    the DDL is sent at most once and never retried. *)
Theorem setup_trino_catalog_sends_at_most_two :
  forall (cfg : config) (w : world) (st : state),
    exists sent,
      executed (trace (snd (setup_trino_catalog cfg w st))) =
        (executed (trace st) ++ sent)%list /\
      (sent = [] \/
       sent = [create_catalog_sql cfg (catalog_name_of (WAREHOUSE_BUCKET cfg))] \/
       sent = [create_catalog_sql cfg (catalog_name_of (WAREHOUSE_BUCKET cfg));
               "SHOW SCHEMAS FROM " ++ catalog_name_of (WAREHOUSE_BUCKET cfg)]).
Proof.
  intros cfg w st.
  destruct (import_trino w) as [[]|e0] eqn:Himp.
  - rewrite setup_trino_catalog_eval by exact Himp.
    run_try_body r1 st1.
    split_outcomes; intros [= <- <-];
      repeat match goal with
             | |- context [is_Exception ?e] => destruct (is_Exception e)
             end;
      rewrite ?setup_except_eval; unfold extend;
      cbn [fst snd trace conn_open cursor_open];
      repeat match goal with
             | |- context [says_already_exists ?e] =>
                 destruct (says_already_exists e)
             end;
      rewrite <- ?app_assoc; cbn [app]; rewrite executed_app; cbn [executed];
      eexists; (split; [reflexivity|]); auto.
  - rewrite (setup_trino_catalog_import_fails cfg w st e0 Himp).
    exists []. unfold extend; cbn. rewrite executed_app, app_nil_r. cbn.
    rewrite app_nil_r. auto.
Qed.

(** X11.  When the DDL is accepted and the [SHOW SCHEMAS] that follows it
    raises an [Exception] that does not say "already exists", the registrar
    logs that the catalog was created and then warns that it could not be
    created; it still returns the catalog name. *)
Theorem setup_trino_catalog_verification_fails :
  forall (cfg : config) (w : world) (st : state) (e : exn),
    import_trino w = Normal tt ->
    dbapi_connect w (TRINO_HOST cfg) (TRINO_PORT cfg) "trino" = Normal tt ->
    conn_cursor w = Normal tt ->
    cursor_execute w (create_catalog_sql cfg (catalog_name_of (WAREHOUSE_BUCKET cfg)))
      = Normal tt ->
    cursor_execute w ("SHOW SCHEMAS FROM " ++ catalog_name_of (WAREHOUSE_BUCKET cfg))
      = Raised e ->
    is_Exception e = true ->
    says_already_exists e = false ->
    fst (setup_trino_catalog cfg w st) =
      Normal (catalog_name_of (WAREHOUSE_BUCKET cfg)) /\
    logged (trace (snd (setup_trino_catalog cfg w st))) =
      app (logged (trace st))
        (["Setting up Trino catalog...";
           "Creating Trino catalog: " ++ catalog_name_of (WAREHOUSE_BUCKET cfg);
           "Trino catalog '" ++ catalog_name_of (WAREHOUSE_BUCKET cfg)
             ++ "' created successfully";
           "Warning: Could not create Trino catalog: " ++ exn_msg e;
           "You may need to create the catalog manually"]).
Proof.
  intros cfg w st e Himp H1 H2 H3 H4 Hexc Hsays.
  rewrite setup_trino_catalog_eval by exact Himp.
  run_try_body r1 st1.
  rewrite H1, H2, H3, H4. intros [= <- <-].
  rewrite Hexc, setup_except_eval, Hsays. unfold extend.
  cbn [fst snd trace]. rewrite <- !app_assoc. cbn [app].
  rewrite logged_app. split; reflexivity.
Qed.

Lemma setup_trino_catalog_verification_fails_witness :
  fst (setup_trino_catalog default_config world_verify_fails init_state) =
    Normal "api_logs" /\
  logged (trace (snd (setup_trino_catalog default_config world_verify_fails
                                          init_state))) =
    ["Setting up Trino catalog..."; "Creating Trino catalog: api_logs";
     "Trino catalog 'api_logs' created successfully";
     "Warning: Could not create Trino catalog: Catalog 'api_logs' is not accessible";
     "You may need to create the catalog manually"].
Proof.
  exact (setup_trino_catalog_verification_fails default_config world_verify_fails
           init_state _ eq_refl eq_refl eq_refl eq_refl eq_refl eq_refl eq_refl).
Defined.

(* ================================================================== *)
(** ** More on the catalog name and the instructions *)
(* ================================================================== *)

Lemma map_str_app (f : ascii -> ascii) (a b : string) :
  map_str f (a ++ b) = map_str f a ++ map_str f b.
Proof. induction a as [|c a IH]; simpl; [reflexivity | now rewrite IH]. Qed.

Lemma contains_hyphen_cons (c : ascii) (s : string) :
  contains "-" (String c s) = Ascii.eqb c "-" || contains "-" s.
Proof.
  cbn [contains prefix].
  destruct (ascii_dec "-" c) as [<-|Hne].
  - now destruct s.
  - destruct (Ascii.eqb_spec c "-") as [->|_]; [now elim Hne | reflexivity].
Qed.

(** X12.  The sanitization leaves a bucket name as it is exactly when the
    name has no hyphen. *)
Theorem catalog_name_fixed_iff_no_hyphen :
  forall bucket : string,
    catalog_name_of bucket = bucket <-> contains "-" bucket = false.
Proof.
  intros bucket. unfold catalog_name_of. rewrite replace_hyphen_map.
  induction bucket as [|c s IH]; [split; reflexivity|].
  rewrite contains_hyphen_cons. cbn [map_str]. unfold hyphen_to_underscore at 1.
  destruct (Ascii.eqb_spec c "-") as [->|Hne]; cbn [orb].
  - split; [intros H; discriminate H | discriminate].
  - rewrite <- IH. split; [intros H; now injection H | intros ->; reflexivity].
Qed.

(** X13.  The sanitization works piece by piece, and it does not tell a
    hyphen from an underscore: two bucket names that differ only in that one
    has a hyphen where the other has an underscore get the same catalog
    name. *)
Theorem catalog_name_of_append_and_collision :
  forall a b : string,
    catalog_name_of (a ++ b) = catalog_name_of a ++ catalog_name_of b /\
    a ++ "-" ++ b <> a ++ "_" ++ b /\
    catalog_name_of (a ++ "-" ++ b) = catalog_name_of (a ++ "_" ++ b).
Proof.
  intros a b. unfold catalog_name_of. rewrite !replace_hyphen_map.
  repeat split.
  - apply map_str_app.
  - induction a as [|c a IH]; simpl; intros H; [discriminate H|].
    injection H as H. now apply IH.
  - now rewrite !map_str_app.
Qed.

(** X14.  For a bucket name without a hyphen the example queries do name the
    bucket: the catalog of the [USE] statement is the bucket name itself. *)
Theorem example_queries_name_plain_bucket :
  forall cfg : config,
    contains "-" (WAREHOUSE_BUCKET cfg) = false ->
    is_infix ("USE " ++ WAREHOUSE_BUCKET cfg ++ "." ++ NAMESPACE cfg ++ ";")
             (example_queries cfg (catalog_name_of (WAREHOUSE_BUCKET cfg))) /\
    is_infix (WAREHOUSE_BUCKET cfg)
             (example_queries cfg (catalog_name_of (WAREHOUSE_BUCKET cfg))).
Proof.
  intros cfg Hplain.
  assert (Hname : catalog_name_of (WAREHOUSE_BUCKET cfg) = WAREHOUSE_BUCKET cfg).
  { unfold catalog_name_of. rewrite replace_hyphen_map.
    induction (WAREHOUSE_BUCKET cfg) as [|c s IH]; [reflexivity|].
    rewrite contains_hyphen_cons in Hplain.
    apply orb_false_iff in Hplain. destruct Hplain as (Hc & Hs).
    cbn [map_str]. unfold hyphen_to_underscore at 1. rewrite Hc.
    now rewrite (IH Hs). }
  rewrite Hname.
  pose proof (use_query_in_example_queries cfg (WAREHOUSE_BUCKET cfg)) as Huse.
  assert (H1 : is_infix ("USE " ++ WAREHOUSE_BUCKET cfg ++ "." ++ NAMESPACE cfg ++ ";")
                        (example_queries cfg (WAREHOUSE_BUCKET cfg))).
  { refine (is_infix_trans _ _ _ _ Huse).
    exists "  ", "". now rewrite append_empty_r. }
  split; [exact H1|].
  refine (is_infix_trans _ _ _ _ H1).
  exists "USE ", ("." ++ NAMESPACE cfg ++ ";"). reflexivity.
Qed.

Lemma example_queries_name_plain_bucket_witness :
  is_infix ("USE " ++ WAREHOUSE_BUCKET plain_config ++ "."
            ++ NAMESPACE plain_config ++ ";")
           (example_queries plain_config
              (catalog_name_of (WAREHOUSE_BUCKET plain_config))) /\
  is_infix (WAREHOUSE_BUCKET plain_config)
           (example_queries plain_config
              (catalog_name_of (WAREHOUSE_BUCKET plain_config))).
Proof.
  apply (example_queries_name_plain_bucket plain_config). reflexivity.
Defined.


(* ================================================================== *)
(** ** More on the entry point *)
(* ================================================================== *)

Section Ends.

Variable cfg : config.
Variable w : world.

(** An exception leaves the registrar only if the import raised it or
    [except Exception] does not catch it. *)
Lemma setup_trino_catalog_raised (st st' : state) (e : exn) :
  setup_trino_catalog cfg w st = (Raised e, st') ->
  import_trino w = Raised e \/ is_Exception e = false.
Proof.
  destruct (import_trino w) as [[]|e0] eqn:Himp.
  - rewrite setup_trino_catalog_eval by exact Himp. unfold try_except.
    destruct (setup_try cfg w _ _) as [[[]|e1] st1]; [discriminate|].
    destruct (is_Exception e1) eqn:Hexc.
    + rewrite setup_except_eval. discriminate.
    + intros H. injection H as <- _. now right.
  - rewrite (setup_trino_catalog_import_fails cfg w st e0 Himp).
    intros H. injection H as <- _. now left.
Qed.

(** How [main] can end. *)
Lemma main_ends (st st' : state) (r : result Z) :
  main cfg w st = (r, st') ->
  match r with
  | Normal status => status = 0%Z
  | Raised e => import_trino w = Raised e \/ is_Exception e = false
  end.
Proof.
  unfold main. unfold bind at 1 2 3. unfold log at 1 2 3, emit.
  unfold bind at 1.
  destruct (wait_for_minio cfg w _) as [[b|e0] st1] eqn:Ew.
  - unfold bind at 1.
    destruct (setup_trino_catalog cfg w st1) as [[name|e0] st2] eqn:Es.
    + unfold bind at 1. rewrite print_instructions_eval.
      unfold bind, log, emit, ret. intros H. injection H as <- _. reflexivity.
    + intros H. injection H as <- _.
      exact (setup_trino_catalog_raised _ _ _ Es).
  - intros H. injection H as <- _. right.
    exact (wait_for_minio_raised_uncaught cfg w _ _ _ Ew).
Qed.

Lemma executed_In (sql : string) (evs : list event) :
  In sql (executed evs) -> In (EvExecute sql) evs.
Proof.
  induction evs as [|ev evs IH]; cbn [executed]; [tauto|].
  destruct ev; cbn [In]; try (intros H; right; now apply IH).
  intros [-> | H]; [now left | right; now apply IH].
Qed.

End Ends.

Lemma app_regroup {A} (before warn a e b rest : list A) :
  (((before ++ warn) ++ (a ++ e ++ b)) ++ rest =
   before ++ warn ++ a ++ e ++ (b ++ rest))%list.
Proof. now rewrite <- !app_assoc. Qed.

(** X16.  With an output that can be written to, the errors of the GETs
    and of the trino client leave [main] in two cases only: the exception was
    raised by [import trino], or it is none that [except Exception] catches.
    Whenever [main] returns, it returns 0. *)
Theorem main_returns_0_or_propagates :
  forall (cfg : config) (w : world) (st : state),
    match fst (main cfg w st) with
    | Normal status => status = 0%Z
    | Raised e => import_trino w = Raised e \/ is_Exception e = false
    end.
Proof.
  intros cfg w st.
  destruct (main cfg w st) as [r st'] eqn:E.
  exact (main_ends cfg w _ _ _ E).
Qed.

(** X17.  The registrar does not wait for MinIO: when none of the 60 GETs is
    answered by a 200 and the trino client works, the run logs the warning of
    the prober, sends the DDL to Trino afterwards, and exits with status 0. *)
Theorem run_script_registers_after_timeout :
  forall (cfg : config) (w : world),
    (forall i, i < 60 ->
       ready (requests_get w i (health_url cfg)) = false) ->
    (forall i, i < 60 ->
       caught (requests_get w i (health_url cfg)) = true) ->
    import_trino w = Normal tt ->
    dbapi_connect w (TRINO_HOST cfg) (TRINO_PORT cfg) "trino" = Normal tt ->
    conn_cursor w = Normal tt ->
    trino_raises_Exception w ->
    fst (run_script cfg w) = Exited 0 /\
    exists before between after,
      trace (snd (run_script cfg w)) =
      (before ++ [EvLog "Warning: MinIO health check timed out"]
       ++ between
       ++ [EvExecute (create_catalog_sql cfg (catalog_name_of (WAREHOUSE_BUCKET cfg)))]
       ++ after)%list.
Proof.
  intros cfg w Hr Hc Himp Hconn Hcur Htrino. unfold run_script.
  set (st0 := extend [EvLog (str_repeat "=" 60);
                      EvLog "API Log Iceberg Integration Test - Initialization";
                      EvLog (str_repeat "=" 60)] 0 init_state).
  set (st00 := extend [EvCall "wait_for_minio";
                       EvLog "Waiting for MinIO cluster to be ready..."] 0 st0).
  assert (Hr' : forall i, i < 60 ->
            ready (requests_get w (i + gets st00) (health_url cfg)) = false)
    by (intros i Hi; cbn; replace (i + 0) with i by lia; now apply Hr).
  assert (Hc' : forall i, i < 60 ->
            caught (requests_get w (i + gets st00) (health_url cfg)) = true)
    by (intros i Hi; cbn; replace (i + 0) with i by lia; now apply Hc).
  pose proof (wait_for_minio_eval cfg w st0 _ None
                (loop_all_fail cfg w 60 0 st00 Hr' Hc')) as Hwait.
  cbv iota in Hwait.
  set (st1 := extend [EvLog "Warning: MinIO health check timed out"] 0
                (extend (failed_rounds (health_url cfg) 60) 60 st00)) in Hwait.
  destruct (setup_trino_catalog_returns cfg w st1 Himp Htrino) as (st2 & Hsetup).
  rewrite (main_eval cfg w init_state st1 st2 false _ Hwait Hsetup).
  cbn [fst snd]. split; [reflexivity|].
  destruct (emits_only_setup_trino_catalog cfg w _ _ _ Hsetup) as (evs & Ht & _).
  destruct (setup_trino_catalog_executes_ddl cfg w st1 Himp Hconn Hcur)
    as (rest & Hexe).
  rewrite Hsetup in Hexe. cbn [snd] in Hexe.
  rewrite Ht, executed_app in Hexe. apply app_inv_head in Hexe.
  assert (Hin : In (EvExecute (create_catalog_sql cfg
                                 (catalog_name_of (WAREHOUSE_BUCKET cfg)))) evs)
    by (apply executed_In; rewrite Hexe; now left).
  apply in_split in Hin. destruct Hin as (a & b & ->).
  unfold extend at 1. cbn [trace]. rewrite Ht.
  unfold st1 at 1. unfold extend at 1. cbn [trace].
  exists (trace (extend (failed_rounds (health_url cfg) 60) 60 st00)), a.
  eexists.
  exact (app_regroup _ [EvLog "Warning: MinIO health check timed out"] a
           [EvExecute (create_catalog_sql cfg
                         (catalog_name_of (WAREHOUSE_BUCKET cfg)))] b _).
Qed.

Lemma run_script_registers_after_timeout_witness :
  fst (run_script default_config world_minio_down) = Exited 0 /\
  exists before between after,
    trace (snd (run_script default_config world_minio_down)) =
    (before ++ [EvLog "Warning: MinIO health check timed out"]
     ++ between
     ++ [EvExecute (create_catalog_sql default_config
                      (catalog_name_of (WAREHOUSE_BUCKET default_config)))]
     ++ after)%list.
Proof.
  apply (run_script_registers_after_timeout default_config world_minio_down).
  - intros i _. reflexivity.
  - intros i _. reflexivity.
  - reflexivity.
  - reflexivity.
  - reflexivity.
  - repeat split; intros; reflexivity.
Defined.

(** X18.  Which runs of the registrar leave the connection open.  Started
    with nothing open and the trino module imported, the registrar ends with
    the connection closed exactly when [trino.dbapi.connect] raised or the
    body of the [try] statement ran to its end; in every other run the
    connection stays open.  The cursor is never open without the
    connection. *)
Theorem setup_trino_catalog_connection_status :
  forall (cfg : config) (w : world) (st : state),
    import_trino w = Normal tt ->
    conn_open st = false ->
    cursor_open st = false ->
    (cursor_open (snd (setup_trino_catalog cfg w st)) = true ->
     conn_open (snd (setup_trino_catalog cfg w st)) = true) /\
    (conn_open (snd (setup_trino_catalog cfg w st)) = false <->
     (exists e, dbapi_connect w (TRINO_HOST cfg) (TRINO_PORT cfg) "trino" = Raised e)
     \/ fst (setup_try cfg w (catalog_name_of (WAREHOUSE_BUCKET cfg))
               (extend [EvCall "setup_trino_catalog"; EvImport "trino";
                        EvLog "Setting up Trino catalog..."] 0 st))
        = Normal tt).
Proof.
  intros cfg w st Himp Hconn Hcur.
  rewrite setup_trino_catalog_eval by exact Himp.
  run_try_body r1 st1. rewrite Hconn, Hcur.
  split_outcomes; intros [= <- <-];
    repeat match goal with
           | |- context [is_Exception ?e] => destruct (is_Exception e)
           end;
    rewrite ?setup_except_eval; unfold extend;
    cbn [fst snd trace conn_open cursor_open];
    (split;
     [ intros H; first [reflexivity | discriminate H]
     | split;
       [ intros H; first [discriminate H | left; eexists; reflexivity
                          | right; reflexivity]
       | intros [[e' H]|H]; first [discriminate H | reflexivity] ] ]).
Qed.

Lemma setup_trino_catalog_connection_status_witness :
  (cursor_open (snd (setup_trino_catalog default_config world_catalog_exists
                                         init_state)) = true ->
   conn_open (snd (setup_trino_catalog default_config world_catalog_exists
                                       init_state)) = true) /\
  (conn_open (snd (setup_trino_catalog default_config world_catalog_exists
                                       init_state)) = false <->
   (exists e, dbapi_connect world_catalog_exists (TRINO_HOST default_config)
                            (TRINO_PORT default_config) "trino" = Raised e)
   \/ fst (setup_try default_config world_catalog_exists
             (catalog_name_of (WAREHOUSE_BUCKET default_config))
             (extend [EvCall "setup_trino_catalog"; EvImport "trino";
                      EvLog "Setting up Trino catalog..."] 0 init_state))
      = Normal tt).
Proof.
  exact (setup_trino_catalog_connection_status default_config world_catalog_exists
           init_state eq_refl eq_refl eq_refl).
Defined.

(* ================================================================== *)
(** ** What is printed and what is sent *)
(* ================================================================== *)

Lemma instructions_printed (cfg : config) (catalog_name : string) (st : state) :
  In (EvPrint (instructions cfg catalog_name))
     (trace (snd (print_instructions cfg catalog_name st))).
Proof.
  rewrite print_instructions_eval. unfold extend; cbn [snd trace].
  apply in_or_app. right. in_lines.
Qed.

Lemma ddl_sent (cfg : config) (w : world) (st : state) :
  import_trino w = Normal tt ->
  dbapi_connect w (TRINO_HOST cfg) (TRINO_PORT cfg) "trino" = Normal tt ->
  conn_cursor w = Normal tt ->
  In (EvExecute (create_catalog_sql cfg (catalog_name_of (WAREHOUSE_BUCKET cfg))))
     (trace (snd (setup_trino_catalog cfg w st))).
Proof.
  intros Himp Hconn Hcur.
  destruct (setup_trino_catalog_executes_ddl cfg w st Himp Hconn Hcur)
    as (rest & Hexe).
  apply executed_In. rewrite Hexe. apply in_or_app. right. now left.
Qed.

(** C9.  In a run in which the registrar reaches its DDL, the statement
    executed is [create_catalog_sql] and the text printed afterwards is
    [instructions], for the catalog name the registrar returned; the manual
    fallback DDL is part of that text, and it is the statement executed: the
    two are the same once every run of whitespace is brought to one space, up
    to the semicolon that ends the printed one.  Catalog name, properties and
    interpolated values are therefore the same, in the same order. *)
Theorem printed_ddl_is_executed_ddl :
  forall (cfg : config) (w : world),
    get_raises_Exception w ->
    import_trino w = Normal tt ->
    dbapi_connect w (TRINO_HOST cfg) (TRINO_PORT cfg) "trino" = Normal tt ->
    conn_cursor w = Normal tt ->
    trino_raises_Exception w ->
    (exists before between after,
        trace (snd (run_script cfg w)) =
        (before
         ++ [EvExecute (create_catalog_sql cfg
                          (catalog_name_of (WAREHOUSE_BUCKET cfg)))]
         ++ between
         ++ [EvPrint (instructions cfg (catalog_name_of (WAREHOUSE_BUCKET cfg)))]
         ++ after)%list) /\
    is_infix (manual_ddl cfg (catalog_name_of (WAREHOUSE_BUCKET cfg)))
             (instructions cfg (catalog_name_of (WAREHOUSE_BUCKET cfg))) /\
    squeeze false (manual_ddl cfg (catalog_name_of (WAREHOUSE_BUCKET cfg))) =
    squeeze false (create_catalog_sql cfg (catalog_name_of (WAREHOUSE_BUCKET cfg)))
    ++ ";".
Proof.
  intros cfg w Hget Himp Hconn Hcur Htrino.
  split; [|split; [apply manual_ddl_in_instructions
                  | apply manual_ddl_layout_free]].
  unfold run_script.
  set (st0 := extend [EvLog (str_repeat "=" 60);
                      EvLog "API Log Iceberg Integration Test - Initialization";
                      EvLog (str_repeat "=" 60)] 0 init_state).
  destruct (wait_for_minio_returns cfg w st0 Hget) as (b & st1 & Hwait).
  destruct (setup_trino_catalog_returns cfg w st1 Himp Htrino) as (st2 & Hsetup).
  rewrite (main_eval cfg w init_state st1 st2 b _ Hwait Hsetup).
  pose proof (ddl_sent cfg w st1 Himp Hconn Hcur) as Hin.
  rewrite Hsetup in Hin. cbn [snd] in Hin.
  apply in_split in Hin. destruct Hin as (a & rest & Ht).
  cbn [snd]. unfold extend. cbn [trace]. rewrite Ht.
  exists a,
    (rest ++ [EvCall "print_instructions";
              EvPrint (nl ++ str_repeat "=" 70);
              EvPrint "SETUP COMPLETE";
              EvPrint (str_repeat "=" 70)])%list,
    [EvPrint (str_repeat "=" 70);
     EvLog (str_repeat "=" 60);
     EvLog "Initialization complete!";
     EvLog (str_repeat "=" 60)].
  rewrite <- !app_assoc. reflexivity.
Qed.

Lemma printed_ddl_is_executed_ddl_witness :
  (exists before between after,
      trace (snd (run_script default_config world_catalog_exists)) =
      (before
       ++ [EvExecute (create_catalog_sql default_config
                        (catalog_name_of (WAREHOUSE_BUCKET default_config)))]
       ++ between
       ++ [EvPrint (instructions default_config
                      (catalog_name_of (WAREHOUSE_BUCKET default_config)))]
       ++ after)%list) /\
  is_infix (manual_ddl default_config
              (catalog_name_of (WAREHOUSE_BUCKET default_config)))
           (instructions default_config
              (catalog_name_of (WAREHOUSE_BUCKET default_config))) /\
  squeeze false (manual_ddl default_config
                   (catalog_name_of (WAREHOUSE_BUCKET default_config))) =
  squeeze false (create_catalog_sql default_config
                   (catalog_name_of (WAREHOUSE_BUCKET default_config)))
  ++ ";".
Proof.
  apply (printed_ddl_is_executed_ddl default_config world_catalog_exists).
  - intros n url. reflexivity.
  - reflexivity.
  - reflexivity.
  - reflexivity.
  - repeat split; intros; reflexivity.
Defined.

(** X15.  The access key and the secret key are not masked.  The text the
    printer prints holds both in clear, for every configuration: in the
    [mc alias] command, in the two key properties of the manual DDL and in
    the line of the console.  The statement the registrar sends to Trino,
    once it has a cursor, holds both in its two key properties. *)
Theorem credentials_appear_in_clear :
  forall (cfg : config) (w : world) (st st' : state) (catalog_name : string),
    import_trino w = Normal tt ->
    dbapi_connect w (TRINO_HOST cfg) (TRINO_PORT cfg) "trino" = Normal tt ->
    conn_cursor w = Normal tt ->
    (exists text,
        In (EvPrint text) (trace (snd (print_instructions cfg catalog_name st'))) /\
        is_infix (ACCESS_KEY cfg) text /\
        is_infix (SECRET_KEY cfg) text /\
        is_infix ("mc alias set minio http://localhost:9000 " ++ ACCESS_KEY cfg
                  ++ " " ++ SECRET_KEY cfg) text /\
        is_infix (q "s3.aws-access-key" ++ " = '" ++ ACCESS_KEY cfg ++ "',") text /\
        is_infix (q "s3.aws-secret-key" ++ " = '" ++ SECRET_KEY cfg ++ "',") text /\
        is_infix ("(" ++ ACCESS_KEY cfg ++ "/" ++ SECRET_KEY cfg ++ ")") text) /\
    (exists sql,
        In (EvExecute sql) (trace (snd (setup_trino_catalog cfg w st))) /\
        is_infix (q "s3.aws-access-key" ++ " = '" ++ ACCESS_KEY cfg ++ "',") sql /\
        is_infix (q "s3.aws-secret-key" ++ " = '" ++ SECRET_KEY cfg ++ "',") sql).
Proof.
  intros cfg w st st' name Himp Hconn Hcur.
  assert (Halias : is_infix
            ("mc alias set minio http://localhost:9000 " ++ ACCESS_KEY cfg
             ++ " " ++ SECRET_KEY cfg) (instructions cfg name)).
  { apply (is_infix_trans _
             ("  mc alias set minio http://localhost:9000 " ++ ACCESS_KEY cfg
              ++ " " ++ SECRET_KEY cfg)).
    - exists "  ", "". now rewrite append_empty_r.
    - apply unlines_In. unfold instructions_lines.
      apply in_or_app. right. apply in_or_app. left.
      unfold step1_lines. in_lines. }
  assert (Hddl : forall line, In line (manual_ddl_lines cfg name) ->
                              is_infix line (instructions cfg name)).
  { intros line Hline.
    apply (is_infix_trans _ (manual_ddl cfg name));
      [now apply unlines_In | apply manual_ddl_in_instructions]. }
  split.
  - exists (instructions cfg name).
    split; [apply instructions_printed|].
    split; [|split; [|split; [exact Halias|split; [|split]]]].
    + refine (is_infix_trans _ _ _ _ Halias).
      exists "mc alias set minio http://localhost:9000 ",
             (" " ++ SECRET_KEY cfg). reflexivity.
    + refine (is_infix_trans _ _ _ _ Halias).
      exists ("mc alias set minio http://localhost:9000 " ++ ACCESS_KEY cfg
              ++ " "), "".
      now rewrite !append_assoc_s, append_empty_r.
    + apply (is_infix_trans _
               ("    " ++ q "s3.aws-access-key" ++ " = '" ++ ACCESS_KEY cfg ++ "',")).
      * exists "    ", "". now rewrite append_empty_r.
      * apply Hddl. unfold manual_ddl_lines. in_lines.
    + apply (is_infix_trans _
               ("    " ++ q "s3.aws-secret-key" ++ " = '" ++ SECRET_KEY cfg ++ "',")).
      * exists "    ", "". now rewrite append_empty_r.
      * apply Hddl. unfold manual_ddl_lines. in_lines.
    + apply (is_infix_trans _
               ("  - MinIO Console: http://localhost:9001 (" ++ ACCESS_KEY cfg
                ++ "/" ++ SECRET_KEY cfg ++ ")")).
      * exists "  - MinIO Console: http://localhost:9001 ", "".
        now rewrite append_empty_r.
      * apply unlines_In. unfold instructions_lines.
        do 6 (apply in_or_app; right). unfold web_lines. in_lines.
  - exists (create_catalog_sql cfg (catalog_name_of (WAREHOUSE_BUCKET cfg))).
    split; [exact (ddl_sent cfg w st Himp Hconn Hcur)|]. split.
    + apply (is_infix_trans _
               ("                " ++ q "s3.aws-access-key" ++ " = '"
                ++ ACCESS_KEY cfg ++ "',")).
      * exists "                ", "". now rewrite append_empty_r.
      * apply unlines_In. unfold create_catalog_sql_lines. in_lines.
    + apply (is_infix_trans _
               ("                " ++ q "s3.aws-secret-key" ++ " = '"
                ++ SECRET_KEY cfg ++ "',")).
      * exists "                ", "". now rewrite append_empty_r.
      * apply unlines_In. unfold create_catalog_sql_lines. in_lines.
Qed.

Lemma credentials_appear_in_clear_witness :
  (exists text,
      In (EvPrint text)
         (trace (snd (print_instructions plain_config "apilogs" init_state))) /\
      is_infix (ACCESS_KEY plain_config) text /\
      is_infix (SECRET_KEY plain_config) text /\
      is_infix ("mc alias set minio http://localhost:9000 "
                ++ ACCESS_KEY plain_config ++ " " ++ SECRET_KEY plain_config) text /\
      is_infix (q "s3.aws-access-key" ++ " = '" ++ ACCESS_KEY plain_config ++ "',")
               text /\
      is_infix (q "s3.aws-secret-key" ++ " = '" ++ SECRET_KEY plain_config ++ "',")
               text /\
      is_infix ("(" ++ ACCESS_KEY plain_config ++ "/" ++ SECRET_KEY plain_config
                ++ ")") text) /\
  (exists sql,
      In (EvExecute sql)
         (trace (snd (setup_trino_catalog plain_config world_503 init_state))) /\
      is_infix (q "s3.aws-access-key" ++ " = '" ++ ACCESS_KEY plain_config ++ "',")
               sql /\
      is_infix (q "s3.aws-secret-key" ++ " = '" ++ SECRET_KEY plain_config ++ "',")
               sql).
Proof.
  exact (credentials_appear_in_clear plain_config world_503 init_state init_state
           "apilogs" eq_refl eq_refl eq_refl).
Defined.
